(** * SkyDecoder: a shallow embedding of the ASTERIX block decoder

    The development follows the C++ sources
    - [include/skydecoder/asterix_types.h] (schema and result structures,
      [ParseContext]),
    - [src/field_parser.cpp] ([FieldParser]),
    - [src/asterix_decoder.cpp] ([AsterixDecoder]).

    Conventions of the embedding:
    - bytes and raw field values are [Z]; sizes, positions and bit counts
      ([size_t], [uint8_t bits]) are [nat] (no [size_t] computation of the
      decoder can wrap: positions stay below the buffer length plus
      [255 * 65535]);
    - [std::string] is [string], [std::vector] is [list],
      [std::optional] is [option], [std::unordered_map] is [gmap];
    - a C++ exception is the outcome [Throw what]; a read through a raw
      pointer outside the allocation it points into, which C++ leaves
      undefined, is the outcome [Fault OutOfRangeRead];
    - members that the code leaves without an initial value and never
      assigns are [option]s holding [None];
    - the [log_*] calls only print when [debug_mode_] is set and are left
      out. *)

From Stdlib Require Import ZArith String Ascii List Bool Lia DecimalString.
From Stdlib Require QArith_base.
From stdpp Require Import gmap strings list.

Local Open Scope string_scope.
Local Open Scope Z_scope.

(** ** Schema model ([asterix_types.h]) *)

Inductive FieldType : Type :=
  | UINT8 | UINT16 | UINT24 | UINT32
  | UINT1 | UINT2 | UINT3 | UINT4 | UINT5 | UINT6 | UINT7 | UINT12 | UINT14
  | INT8 | INT16 | INT24 | INT32
  | BOOL | STRING | BYTES.

Inductive DataFormat : Type := FIXED | VARIABLE | EXPLICIT | REPETITIVE.

Inductive Unit : Type :=
  | NONE | SECONDS | NAUTICAL_MILES | DEGREES | FLIGHT_LEVEL | FEET | KNOTS
  | METERS_PER_SECOND.

(** [std::variant<uint8_t, uint16_t, uint32_t, int8_t, int16_t, int32_t,
    bool, std::string, std::vector<uint8_t>>] *)
Inductive FieldValue : Type :=
  | VU8 (v : Z) | VU16 (v : Z) | VU32 (v : Z)
  | VI8 (v : Z) | VI16 (v : Z) | VI32 (v : Z)
  | VBool (b : bool)
  | VString (s : string)
  | VBytes (bs : list Z).

Record EnumValue : Type := mkEnumValue {
  ev_value : Z;
  ev_description : string
}.

(** [struct Field]; [lsb] is a [double] in the source and is only carried
    along, here as an exact rational. *)
#[warnings="-register-all"]
Inductive Field : Type := mkField {
  f_name : string;
  f_type : FieldType;
  f_bits : nat;
  f_description : string;
  f_lsb : QArith_base.Q;
  f_unit : Unit;
  f_enums : list EnumValue;
  f_encoding : option string;
  f_condition : option string;
  f_extension_fields : list Field
}.

Record DataItem : Type := mkDataItem {
  di_id : string;
  di_name : string;
  di_definition : string;
  di_format : DataFormat;
  di_length : option nat;
  di_fields : list Field
}.

Record UserApplicationProfile : Type := mkUAP { uap_items : list string }.

Record CategoryHeader : Type := mkHeader {
  h_category : Z;
  h_name : string;
  h_description : string;
  h_version : string;
  h_date : string
}.

Record ParsingRule : Type := mkParsingRule {
  pr_name : string;
  pr_description : string;
  pr_condition : string;
  pr_action : string
}.

Record ValidationRule : Type := mkValidationRule {
  vr_field : string;
  vr_type : string;
  vr_condition : option string
}.

Record AsterixCategory : Type := mkCategory {
  header : CategoryHeader;
  uap : UserApplicationProfile;
  data_items : gmap string DataItem;
  parsing_rules : list ParsingRule;
  validation_rules : list ValidationRule
}.

(** ** Parse results *)

Record ParsedField : Type := mkParsedField {
  pf_name : string;
  pf_value : FieldValue;
  pf_description : string;
  pf_unit : Unit;
  pf_valid : bool;
  pf_error_message : string
}.

Record ParsedDataItem : Type := mkParsedDataItem {
  pdi_id : string;
  pdi_name : string;
  pdi_fields : list ParsedField;
  pdi_valid : bool;
  pdi_error_message : string
}.

(** [uint16_t length] has no initialiser in [AsterixMessage]. *)
Record AsterixMessage : Type := mkMessage {
  msg_category : Z;
  msg_length : option Z;
  msg_data_items : list ParsedDataItem;
  msg_valid : bool;
  msg_error_message : string
}.

(** None of the members of [AsterixBlock] has an initialiser: after
    [AsterixBlock block;] the scalars are indeterminate until assigned. *)
Record AsterixBlock : Type := mkBlock {
  blk_category : option Z;
  blk_length : option Z;
  blk_valid : option bool;
  blk_messages : list AsterixMessage
}.

(** ** Outcomes of a computation *)

Inductive fault : Type := OutOfRangeRead | NullCategory.

Inductive outcome (A : Type) : Type :=
  | Ok (a : A)
  | Throw (what : string)
  | Fault (f : fault).
Arguments Ok {A} a.
Arguments Throw {A} what.
Arguments Fault {A} f.

(** ** [ParseContext]

    [const uint8_t* data] is a pointer into an allocation: the allocation
    is [ctx_buffer] and the pointer is the offset [ctx_base] into it.
    [ctx_size] is the size the constructor was told, which nothing ties to
    the allocation. *)
Record ParseContext : Type := mkContext {
  ctx_buffer : list Z;
  ctx_base : nat;
  ctx_size : nat;
  ctx_position : nat;
  ctx_category : option AsterixCategory
}.

Definition set_position (c : ParseContext) (p : nat) : ParseContext :=
  mkContext (ctx_buffer c) (ctx_base c) (ctx_size c) p (ctx_category c).

Definition set_category (c : ParseContext) (cat : option AsterixCategory)
  : ParseContext :=
  mkContext (ctx_buffer c) (ctx_base c) (ctx_size c) (ctx_position c) cat.

(** [ParseContext(d, s, c)] with [d = data + off] of an existing context,
    or the start of a vector ([off = 0]). *)
Definition new_context (buffer : list Z) (off s : nat)
    (c : option AsterixCategory) : ParseContext :=
  mkContext buffer off s 0 c.

(** A computation that mutates the context it is given by reference: the
    context is handed back whatever the outcome, as a [catch] block sees
    the mutations made before the [throw]. *)
Definition M (A : Type) : Type := ParseContext -> outcome A * ParseContext.

Definition ret {A} (a : A) : M A := fun c => (Ok a, c).
Definition throw {A} (what : string) : M A := fun c => (Throw what, c).
Definition bind {A B} (m : M A) (k : A -> M B) : M B :=
  fun c =>
    match m c with
    | (Ok a, c') => k a c'
    | (Throw w, c') => (Throw w, c')
    | (Fault f, c') => (Fault f, c')
    end.

Notation "'do' x <- m ; k" := (bind m (fun x => k))
  (at level 10, x name, m at level 100, k at level 200).

(** [data[i]]: the byte at offset [i] from the pointer, if that is inside
    the allocation. *)
Definition deref (c : ParseContext) (i : nat) : option Z :=
  ctx_buffer c !! (ctx_base c + i)%nat.

Definition has_data (c : ParseContext) (bytes : nat) : bool :=
  (ctx_position c + bytes <=? ctx_size c)%nat.

Definition read_uint8 : M Z := fun c =>
  if negb (has_data c 1) then (Throw "Insufficient data", c)
  else match deref c (ctx_position c) with
       | Some b => (Ok b, set_position c (ctx_position c + 1))
       | None => (Fault OutOfRangeRead, c)
       end.

Definition read_uint16 : M Z := fun c =>
  if negb (has_data c 2) then (Throw "Insufficient data", c)
  else match deref c (ctx_position c), deref c (ctx_position c + 1) with
       | Some hi, Some lo =>
           (Ok (Z.lor (Z.shiftl hi 8) lo), set_position c (ctx_position c + 2))
       | _, _ => (Fault OutOfRangeRead, c)
       end.

Definition read_uint24 : M Z := fun c =>
  if negb (has_data c 3) then (Throw "Insufficient data", c)
  else match deref c (ctx_position c), deref c (ctx_position c + 1),
             deref c (ctx_position c + 2) with
       | Some b0, Some b1, Some b2 =>
           (Ok (Z.lor (Z.lor (Z.shiftl b0 16) (Z.shiftl b1 8)) b2),
            set_position c (ctx_position c + 3))
       | _, _, _ => (Fault OutOfRangeRead, c)
       end.

(** The range constructor [vector(data + position, data + position + count)]
    reads the [count] bytes in turn. *)
Fixpoint copy_range (c : ParseContext) (from count : nat) : option (list Z) :=
  match count with
  | O => Some []
  | S n =>
      match deref c from, copy_range c (S from) n with
      | Some b, Some bs => Some (b :: bs)
      | _, _ => None
      end
  end.

Definition read_bytes (count : nat) : M (list Z) := fun c =>
  if negb (has_data c count) then (Throw "Insufficient data", c)
  else match copy_range c (ctx_position c) count with
       | Some bs => (Ok bs, set_position c (ctx_position c + count))
       | None => (Fault OutOfRangeRead, c)
       end.

Definition skip (bytes : nat) : M unit := fun c =>
  if negb (has_data c bytes) then (Throw "Insufficient data", c)
  else (Ok tt, set_position c (ctx_position c + bytes)).

(** ** [FieldParser] ([field_parser.cpp]) *)

(** [extract_bits]: the loop [for (i = 0; i < num_bits; ++i)], with
    [todo = num_bits - i] iterations left. *)
Fixpoint extract_bits_loop (data : list Z) (byte_offset bit_offset num_bits : nat)
    (todo : nat) (result : Z) : outcome Z :=
  match todo with
  | O => Ok result
  | S todo' =>
      let i := (num_bits - todo)%nat in
      let current_byte := (byte_offset + (bit_offset + i) / 8)%nat in
      let current_bit := (7 - (bit_offset + i) mod 8)%nat in
      match data !! current_byte with
      | None => Throw "Bit extraction exceeds data size"
      | Some b =>
          let result :=
            if negb (Z.land b (Z.shiftl 1 (Z.of_nat current_bit)) =? 0)
            then Z.lor result (Z.shiftl 1 (Z.of_nat (num_bits - 1 - i)))
            else result in
          extract_bits_loop data byte_offset bit_offset num_bits todo' result
      end
  end.

Definition extract_bits (data : list Z) (start_bit num_bits : nat) : outcome Z :=
  if (32 <? num_bits)%nat then Throw "Cannot extract more than 32 bits"
  else
    let byte_offset := (start_bit / 8)%nat in
    let bit_offset := (start_bit mod 8)%nat in
    extract_bits_loop data byte_offset bit_offset num_bits num_bits 0.

Definition read_field_bytes (field : Field) : M (list Z) :=
  let bytes_needed := ((f_bits field + 7) / 8)%nat in
  read_bytes bytes_needed.

(** [static_cast] to an unsigned, resp. signed, integer type of [w] bits. *)
Definition cast_unsigned (w : Z) (z : Z) : Z := z mod 2 ^ w.
Definition cast_signed (w : Z) (z : Z) : Z :=
  let m := z mod 2 ^ w in
  if m <? 2 ^ (w - 1) then m else m - 2 ^ w.

(** The loop [for (i = 0; i < num_bytes; ++i)
    bytes.push_back((raw_value >> (8 * (num_bytes - 1 - i))) & 0xFF)]
    of the [STRING] and [BYTES] cases. *)
Definition raw_to_bytes (raw_value : Z) (num_bytes : nat) : list Z :=
  map (fun i => Z.land (Z.shiftr raw_value (8 * Z.of_nat (num_bytes - 1 - i))) 255)
      (seq 0 num_bytes).

(** [icao_alphabet] without its terminating NUL, which [sizeof] counts. *)
Definition icao_alphabet : string :=
  " ABCDEFGHIJKLMNOPQRSTUVWXYZ     0123456789      ".

Definition icao_char (char_code : nat) : ascii :=
  match String.get char_code icao_alphabet with
  | Some c => c
  | None => Ascii.zero
  end.

(** One six-bit group of [decode_6bit_ascii], most significant bit first.
    [bit_pos + 6 <= 8 * data.size()] holds where it is called, so the
    index is inside the vector. *)
Definition six_bit_code (data : list Z) (bit_pos : nat) : nat :=
  fold_left
    (fun char_code i =>
       let byte_idx := ((bit_pos + i) / 8)%nat in
       let bit_idx := (7 - (bit_pos + i) mod 8)%nat in
       if negb (Z.land (default 0 (data !! byte_idx))
                       (Z.shiftl 1 (Z.of_nat bit_idx)) =? 0)
       then Nat.lor char_code (Nat.shiftl 1 (5 - i))
       else char_code)
    (seq 0 6) 0%nat.

Fixpoint strip_trailing_spaces_rev (r : list ascii) : list ascii :=
  match r with
  | c :: r' => if Ascii.eqb c " " then strip_trailing_spaces_rev r' else r
  | [] => []
  end.

Definition strip_trailing_spaces (s : string) : string :=
  string_of_list_ascii
    (rev (strip_trailing_spaces_rev (rev (list_ascii_of_string s)))).

Definition decode_6bit_ascii (data : list Z) : string :=
  let total_bits := (length data * 8)%nat in
  let result :=
    fold_left
      (fun result k =>
         let char_code := six_bit_code data (6 * k) in
         if (char_code <? 49)%nat then
           let c := icao_char char_code in
           if negb (Ascii.eqb c " ") || negb (String.eqb result "")
           then result +:+ String c "" else result
         else result)
      (seq 0 (total_bits / 6)) "" in
  strip_trailing_spaces result.

(** [std::to_string] of a [uint32_t]. *)
Definition to_string (z : Z) : string :=
  NilZero.string_of_uint (N.to_uint (Z.to_N z)).

Definition convert_raw_value (raw_value : Z) (field : Field) : FieldValue :=
  match f_type field with
  | UINT8 | UINT1 | UINT2 | UINT3 | UINT4 | UINT5 | UINT6 | UINT7 =>
      VU8 (cast_unsigned 8 raw_value)
  | UINT16 | UINT12 | UINT14 =>
      VU16 (cast_unsigned 16 raw_value)
  | UINT24 | UINT32 =>
      VU32 raw_value
  | INT8 =>
      if negb (Z.land raw_value 0x80 =? 0)
      then VI8 (cast_signed 8 (Z.lor raw_value 0xFFFFFF00))
      else VI8 (cast_signed 8 raw_value)
  | INT16 =>
      if negb (Z.land raw_value 0x8000 =? 0)
      then VI16 (cast_signed 16 (Z.lor raw_value 0xFFFF0000))
      else VI16 (cast_signed 16 raw_value)
  | INT24 =>
      if negb (Z.land raw_value 0x800000 =? 0)
      then VI32 (cast_signed 32 (Z.lor raw_value 0xFF000000))
      else VI32 (cast_signed 32 raw_value)
  | INT32 =>
      VI32 (cast_signed 32 raw_value)
  | BOOL =>
      VBool (negb (raw_value =? 0))
  | STRING =>
      match f_encoding field with
      | Some enc =>
          if String.eqb enc "6bit_ascii"
          then VString (decode_6bit_ascii
                          (raw_to_bytes raw_value ((f_bits field + 7) / 8)))
          else VString (to_string raw_value)
      | None => VString (to_string raw_value)
      end
  | BYTES =>
      VBytes (raw_to_bytes raw_value ((f_bits field + 7) / 8))
  end.

(** [::isspace] in the "C" locale. *)
Definition isspace (c : ascii) : bool :=
  let n := nat_of_ascii c in
  ((9 <=? n) && (n <=? 13) || (n =? 32))%nat.

Definition remove_spaces (s : string) : string :=
  string_of_list_ascii
    (List.filter (fun c => negb (isspace c)) (list_ascii_of_string s)).

Definition is_digit (c : ascii) : bool :=
  let n := nat_of_ascii c in ((48 <=? n) && (n <=? 57))%nat.

Fixpoint leading_digits (s : string) : list ascii :=
  match s with
  | String c s' => if is_digit c then c :: leading_digits s' else []
  | EmptyString => []
  end.

Definition digits_value (ds : list ascii) : Z :=
  fold_left (fun acc c => 10 * acc + (Z.of_nat (nat_of_ascii c) - 48)) ds 0.

Fixpoint skip_spaces (s : string) : string :=
  match s with
  | String c s' => if isspace c then skip_spaces s' else s
  | EmptyString => EmptyString
  end.

(** [std::stoi(str)]: optional white space and sign, then the longest run of
    decimal digits; [std::invalid_argument] without a digit,
    [std::out_of_range] outside [int]. Both carry the name of the function
    as their message in libstdc++. *)
Definition stoi (str : string) : outcome Z :=
  let s := skip_spaces str in
  let '(negative, s) :=
    match s with
    | String "-" s' => (true, s')
    | String "+" s' => (false, s')
    | _ => (false, s)
    end in
  match leading_digits s with
  | [] => Throw "stoi"
  | ds =>
      let v := if negative : bool then - digits_value ds else digits_value ds in
      if (v <? - 2 ^ 31) || (2 ^ 31 <=? v) then Throw "stoi" else Ok v
  end.

(** The search [for (const auto& field : fields)] of [evaluate_condition]:
    a field of the right name whose value is neither [bool] nor [uint8_t]
    lets the search go on. *)
Fixpoint evaluate_condition_search (field_name expected_value : string)
    (fields : list ParsedField) : outcome bool :=
  match fields with
  | [] => Ok false
  | field :: rest =>
      if String.eqb (pf_name field) field_name then
        match pf_value field with
        | VBool field_val =>
            Ok ((String.eqb expected_value "1" && field_val)
                || (String.eqb expected_value "0" && negb field_val))
        | VU8 field_val =>
            match stoi expected_value with
            | Ok n => Ok (field_val =? n)
            | Throw w => Throw w
            | Fault f => Fault f
            end
        | _ => evaluate_condition_search field_name expected_value rest
        end
      else evaluate_condition_search field_name expected_value rest
  end.

Definition evaluate_condition (condition : string) (fields : list ParsedField)
  : outcome bool :=
  match String.index 0 "==" condition with
  | Some pos =>
      let field_name := String.substring 0 pos condition in
      let expected_value :=
        String.substring (pos + 2) (String.length condition - (pos + 2)) condition in
      let field_name := remove_spaces field_name in
      let expected_value := remove_spaces expected_value in
      evaluate_condition_search field_name expected_value fields
  | None => Ok false
  end.

(** The [ParsedField] that [parse_field] has filled in before its [try]. *)
Definition field_result (field_def : Field) (value : FieldValue) (valid : bool)
    (error_message : string) : ParsedField :=
  mkParsedField (f_name field_def) value (f_description field_def)
    (f_unit field_def) valid error_message.

(** [parse_field] catches every exception: a failure yields a field with
    [valid = false], the message, and the default-constructed value
    ([uint8_t] 0, the first alternative of the variant). *)
Definition parse_field (field_def : Field) : M ParsedField := fun context =>
  match read_field_bytes field_def context with
  | (Ok field_bytes, context) =>
      match extract_bits field_bytes 0 (f_bits field_def) with
      | Ok raw_value =>
          (Ok (field_result field_def (convert_raw_value raw_value field_def)
                 true ""), context)
      | Throw what => (Ok (field_result field_def (VU8 0) false what), context)
      | Fault f => (Fault f, context)
      end
  | (Throw what, context) =>
      (Ok (field_result field_def (VU8 0) false what), context)
  | (Fault f, context) => (Fault f, context)
  end.

(** [parse_extension_fields]; its third parameter is not used by the
    source. The result vector is threaded as an accumulator. *)
Fixpoint parse_extension_fields_loop (extension_fields : list Field)
    (result : list ParsedField) : M (list ParsedField) :=
  match extension_fields with
  | [] => ret result
  | field_def :: rest =>
      if String.eqb (f_name field_def) "spare"
      then parse_extension_fields_loop rest result
      else do parsed_field <- parse_field field_def;
           parse_extension_fields_loop rest (result ++ [parsed_field])
  end.

Definition parse_extension_fields (extension_fields : list Field)
    (parsed_fields : list ParsedField) : M (list ParsedField) :=
  parse_extension_fields_loop extension_fields [].

(** The [VARIABLE] case of [parse_data_item]: the [while (true)] loop that
    looks for a byte with FX = 0. [budget] is
    [size - position + 1 - bytes_to_read], so that it is zero exactly when
    [has_data(bytes_to_read)] fails, which is where the source throws. *)
Fixpoint scan_variable (budget : nat) (context : ParseContext)
    (start_position bytes_to_read : nat) : outcome nat :=
  match budget with
  | O => Throw "Insufficient data for variable length field"
  | S budget' =>
      if negb (has_data context bytes_to_read)
      then Throw "Insufficient data for variable length field"
      else
        match deref context (start_position + bytes_to_read - 1) with
        | None => Fault OutOfRangeRead
        | Some last_byte =>
            if Z.land last_byte 0x01 =? 0 then Ok bytes_to_read
            else scan_variable budget' context start_position (bytes_to_read + 1)
        end
  end.

(** The [switch (item_def.format)] of [parse_data_item], which computes
    [bytes_to_read]. *)
Definition determine_length (item_def : DataItem) : M nat := fun context =>
  let start_position := ctx_position context in
  match di_format item_def with
  | FIXED =>
      match di_length item_def with
      | Some l => (Ok l, context)
      | None => (Throw "Fixed format requires length specification", context)
      end
  | EXPLICIT =>
      if negb (has_data context 1)
      then (Throw "Insufficient data for explicit length", context)
      else (do b <- read_uint8; ret (Z.to_nat b)) context
  | REPETITIVE =>
      if negb (has_data context 1)
      then (Throw "Insufficient data for repetitive length", context)
      else (do rep_count <- read_uint8;
            match di_length item_def with
            | Some l => ret (Z.to_nat rep_count * l)%nat
            | None => throw "Repetitive format requires length specification"
            end) context
  | VARIABLE =>
      (scan_variable (ctx_size context - ctx_position context) context
         start_position 1, context)
  end.

(** The loop [for (const auto& field_def : item_def.fields)] of
    [parse_data_item]. It returns [result.fields] as it stands when the loop
    ends or is left by an exception. [item_context] is only moved by
    [parse_extension_fields]; each field is read through a copy,
    [field_context], positioned at [bit_offset / 8]. *)
Fixpoint parse_fields (fields : list Field) (item_context : ParseContext)
    (bit_offset : nat) (result_fields : list ParsedField)
  : outcome unit * list ParsedField :=
  match fields with
  | [] => (Ok tt, result_fields)
  | field_def :: rest =>
      if String.eqb (f_name field_def) "spare" then
        parse_fields rest item_context (bit_offset + f_bits field_def) result_fields
      else
        let field_context := set_position item_context (bit_offset / 8) in
        match parse_field field_def field_context with
        | (Ok parsed_field, _) =>
            let result_fields := (result_fields ++ [parsed_field])%list in
            match f_condition field_def, f_extension_fields field_def with
            | Some condition, _ :: _ =>
                match evaluate_condition condition result_fields with
                | Ok true =>
                    match parse_extension_fields (f_extension_fields field_def)
                            result_fields item_context with
                    | (Ok extension_fields, item_context) =>
                        parse_fields rest item_context
                          (bit_offset + f_bits field_def)
                          (result_fields ++ extension_fields)
                    | (Throw what, _) => (Throw what, result_fields)
                    | (Fault f, _) => (Fault f, result_fields)
                    end
                | Ok false =>
                    parse_fields rest item_context
                      (bit_offset + f_bits field_def) result_fields
                | Throw what => (Throw what, result_fields)
                | Fault f => (Fault f, result_fields)
                end
            | _, _ =>
                parse_fields rest item_context
                  (bit_offset + f_bits field_def) result_fields
            end
        | (Throw what, _) => (Throw what, result_fields)
        | (Fault f, _) => (Fault f, result_fields)
        end
  end.

(** [parse_data_item] catches every exception, so it never yields [Throw].
    [start_position] is taken before the length or repetition byte is
    read. *)
Definition parse_data_item (item_def : DataItem) : M ParsedDataItem :=
  fun context =>
  let start_position := ctx_position context in
  match determine_length item_def context with
  | (Ok bytes_to_read, context) =>
      let item_context :=
        new_context (ctx_buffer context) (ctx_base context + start_position)
          bytes_to_read (ctx_category context) in
      match parse_fields (di_fields item_def) item_context 0 [] with
      | (Ok _, fields) =>
          (Ok (mkParsedDataItem (di_id item_def) (di_name item_def) fields true ""),
           set_position context (start_position + bytes_to_read))
      | (Throw what, fields) =>
          (Ok (mkParsedDataItem (di_id item_def) (di_name item_def) fields
                 false what),
           context)
      | (Fault f, _) => (Fault f, context)
      end
  | (Throw what, context) =>
      (Ok (mkParsedDataItem (di_id item_def) (di_name item_def) [] false what),
       context)
  | (Fault f, context) => (Fault f, context)
  end.

(** ** [AsterixDecoder] ([asterix_decoder.cpp]) *)

Record AsterixDecoder : Type := mkDecoder {
  categories_ : gmap Z AsterixCategory;
  strict_validation_ : bool;
  debug_mode_ : bool
}.

(** [parse_field_specification]: the [do ... while (fspec.size() < 16)]
    loop, with [more = 16 - fspec.size()] before each iteration. *)
Fixpoint parse_field_specification_loop (more : nat) (fspec : list Z)
  : M (list Z) :=
  match more with
  | O => ret fspec
  | S more' => fun context =>
      if negb (has_data context 1)
      then (Throw "Insufficient data for FSPEC", context)
      else (do fspec_byte <- read_uint8;
            let fspec := (fspec ++ [fspec_byte])%list in
            if Z.land fspec_byte 0x01 =? 0 then ret fspec
            else parse_field_specification_loop more' fspec) context
  end.

Definition parse_field_specification : M (list Z) :=
  parse_field_specification_loop 16 [].

(** The inner loop [for (int bit = 7; bit >= 8 - bits_to_check; --bit)] of
    [parse_uap_items] over the bit numbers [bits]; the lookup fails exactly
    when [bit_index >= uap.items.size()], where the source breaks. *)
Fixpoint check_bits (bits : list nat) (fspec_byte : Z) (items : list string)
    (bit_index : nat) (present_items : list string) : nat * list string :=
  match bits with
  | [] => (bit_index, present_items)
  | bit :: bits' =>
      match items !! bit_index with
      | None => (bit_index, present_items)
      | Some item =>
          check_bits bits' fspec_byte items (S bit_index)
            (if negb (Z.land fspec_byte (Z.shiftl 1 (Z.of_nat bit)) =? 0)
             then (present_items ++ [item])%list else present_items)
      end
  end.

(** The outer loop of [parse_uap_items]; [byte_idx == fspec.size() - 1]
    holds for the last byte of the vector. *)
Fixpoint parse_uap_items_loop (fspec : list Z) (items : list string)
    (bit_index : nat) (present_items : list string) : list string :=
  match fspec with
  | [] => present_items
  | fspec_byte :: rest =>
      let bits_to_check := match rest with [] => 8%nat | _ => 7%nat end in
      let '(bit_index, present_items) :=
        check_bits (rev (seq (8 - bits_to_check) bits_to_check)) fspec_byte
          items bit_index present_items in
      parse_uap_items_loop rest items bit_index present_items
  end.

Definition parse_uap_items (fspec : list Z) (uap : UserApplicationProfile)
  : list string :=
  parse_uap_items_loop fspec (uap_items uap) 0 [].

(** The loop [for (const auto& item_id : present_items)] of
    [decode_message_internal]; it returns [message.data_items] as it stands
    when the loop ends or is left. *)
Fixpoint decode_items (cat : AsterixCategory) (present_items : list string)
    (parsed : list ParsedDataItem) (context : ParseContext)
  : outcome unit * list ParsedDataItem * ParseContext :=
  match present_items with
  | [] => (Ok tt, parsed, context)
  | item_id :: rest =>
      if String.eqb item_id "spare" then decode_items cat rest parsed context
      else
        match data_items cat !! item_id with
        | None => decode_items cat rest parsed context
        | Some item_def =>
            match parse_data_item item_def context with
            | (Ok parsed_item, context) =>
                decode_items cat rest (parsed ++ [parsed_item]) context
            | (Throw what, context) => (Throw what, parsed, context)
            | (Fault f, context) => (Fault f, parsed, context)
            end
        end
  end.

(** [decode_message_internal] catches every exception. [message.length] is
    never assigned. *)
Definition decode_message_internal : M AsterixMessage := fun context =>
  match ctx_category context with
  | None => (Fault NullCategory, context)
  | Some cat =>
      let category := h_category (header cat) in
      match parse_field_specification context with
      | (Ok fspec, context) =>
          let present_items := parse_uap_items fspec (uap cat) in
          match decode_items cat present_items [] context with
          | (Ok _, items, context) =>
              (Ok (mkMessage category None items true ""), context)
          | (Throw what, items, context) =>
              (Ok (mkMessage category None items false what), context)
          | (Fault f, _, context) => (Fault f, context)
          end
      | (Throw what, context) =>
          (Ok (mkMessage category None [] false what), context)
      | (Fault f, context) => (Fault f, context)
      end
  end.

(** The loop [while (context.position < block.length && context.has_data(1))]
    of [decode_block]. [None] means that [fuel] iterations were not
    enough. *)
Fixpoint decode_messages (fuel : nat) (block_length : Z)
    (messages : list AsterixMessage) (context : ParseContext)
  : option (outcome unit * list AsterixMessage * ParseContext) :=
  if (Z.of_nat (ctx_position context) <? block_length) && has_data context 1
  then
    match fuel with
    | O => None
    | S fuel' =>
        match decode_message_internal context with
        | (Ok message, context) =>
            decode_messages fuel' block_length (messages ++ [message]) context
        | (Throw what, context) => Some (Throw what, messages, context)
        | (Fault f, context) => Some (Fault f, messages, context)
        end
    end
  else Some (Ok tt, messages, context).

(** [decode_block] with the number of loop iterations bounded by [fuel].
    The handler of its [try] only logs, so that whatever had been assigned
    to [block] is returned. *)
Definition decode_block_fuel (fuel : nat) (self : AsterixDecoder)
    (data : list Z) : option (outcome AsterixBlock) :=
  if (length data <? 3)%nat
  then Some (Ok (mkBlock None None (Some false) []))
  else
    let context := new_context data 0 (length data) None in
    match read_uint8 context with
    | (Ok category, context) =>
        match read_uint16 context with
        | (Ok block_length, context) =>
            match categories_ self !! category with
            | None =>
                Some (Ok (mkBlock (Some category) (Some block_length) None []))
            | Some cat =>
                let context := set_category context (Some cat) in
                match decode_messages fuel block_length [] context with
                | None => None
                | Some (Ok _, messages, _) | Some (Throw _, messages, _) =>
                    Some (Ok (mkBlock (Some category) (Some block_length) None
                                messages))
                | Some (Fault f, _, _) => Some (Fault f)
                end
            end
        | (Throw _, _) => Some (Ok (mkBlock (Some category) None None []))
        | (Fault f, _) => Some (Fault f)
        end
    | (Throw _, _) => Some (Ok (mkBlock None None None []))
    | (Fault f, _) => Some (Fault f)
    end.

(** Every iteration of the message loop consumes at least one byte, so
    [data.size()] iterations are enough (see [decode_messages_enough]). *)
Definition decode_block (self : AsterixDecoder) (data : list Z)
  : option (outcome AsterixBlock) :=
  decode_block_fuel (length data) self data.

(** [validate_mandatory_fields] *)
Definition item_present (message : AsterixMessage) (field : string) : bool :=
  existsb (fun item => String.eqb (pdi_id item) field) (msg_data_items message).

Fixpoint validate_mandatory_fields_loop (strict : bool) (message : AsterixMessage)
    (rules : list ValidationRule) : bool :=
  match rules with
  | [] => true
  | rule :: rest =>
      if String.eqb (vr_type rule) "mandatory"
         && negb (item_present message (vr_field rule))
         && strict
      then false
      else validate_mandatory_fields_loop strict message rest
  end.

Definition validate_mandatory_fields (self : AsterixDecoder)
    (message : AsterixMessage) (category : AsterixCategory) : bool :=
  validate_mandatory_fields_loop (strict_validation_ self) message
    (validation_rules category).

(** [validate_conditional_fields]: the body of the loop over the rules is
    a comment ("TODO: Implement conditional field validation"). *)
Fixpoint validate_conditional_fields_loop (message : AsterixMessage)
    (rules : list ValidationRule) : bool :=
  match rules with
  | [] => true
  | rule :: rest =>
      if String.eqb (vr_type rule) "conditional" && bool_decide (is_Some (vr_condition rule))
      then validate_conditional_fields_loop message rest
      else validate_conditional_fields_loop message rest
  end.

Definition validate_conditional_fields (self : AsterixDecoder)
    (message : AsterixMessage) (category : AsterixCategory) : bool :=
  validate_conditional_fields_loop message (validation_rules category).

Definition validate_message (self : AsterixDecoder) (message : AsterixMessage)
  : bool :=
  match categories_ self !! msg_category message with
  | None => false
  | Some category =>
      if negb (validate_mandatory_fields self message category) then false
      else if negb (validate_conditional_fields self message category) then false
      else msg_valid message
  end.

(** ** The CAT002 description ([data/asterix_categories/cat02.xml])

    The fields and items below are what the description declares, with the
    defaults of [struct Field] for the attributes it leaves out; each field
    has the [FieldType] that its [type] attribute names. *)

Definition plain_field (name : string) (type : FieldType) (bits : nat)
    (description : string) (lsb : QArith_base.Q) (unit : Unit) : Field :=
  mkField name type bits description lsb unit [] None None [].

(** [double lsb = 1.0], the default of [struct Field]. *)
Definition lsb_default : QArith_base.Q := QArith_base.Qmake 1 1.

Definition cat002_uap : UserApplicationProfile :=
  mkUAP ["I002/010"; "I002/000"; "I002/020"; "I002/030"; "I002/041";
         "I002/050"; "I002/060"; "spare"; "I002/070"; "I002/100";
         "I002/090"; "I002/080"; "spare"; "I002/SP"; "I002/RE"].

Definition I002_010 : DataItem :=
  mkDataItem "I002/010" "Data Source Identifier"
    "Identification of the radar station from which the data are received"
    FIXED (Some 2%nat)
    [plain_field "SAC" UINT8 8 "System Area Code" lsb_default NONE;
     plain_field "SIC" UINT8 8 "System Identification Code" lsb_default
       NONE].

Definition I002_000 : DataItem :=
  mkDataItem "I002/000" "Message Type"
    "This Data Item allows for a more convenient handling of the messages at the receiver side by further defining the type of transaction"
    FIXED (Some 1%nat)
    [mkField "MESSAGE_TYPE" UINT8 8 "Message Type" lsb_default NONE
       [mkEnumValue 1 "North marker message";
        mkEnumValue 2 "Sector crossing message";
        mkEnumValue 3 "South marker message";
        mkEnumValue 8 "Activation of blind zone filtering";
        mkEnumValue 9 "Stop of blind zone filtering"]
       None None []].

Definition I002_020 : DataItem :=
  mkDataItem "I002/020" "Sector Number"
    "Eight most significant bits of the antenna azimuth defining a particular azimuth sector"
    FIXED (Some 1%nat)
    [plain_field "SECTOR" UINT8 8 "Antenna azimuth (8 MSB)"
       (QArith_base.Qmake 360 256) DEGREES].

Definition I002_030 : DataItem :=
  mkDataItem "I002/030" "Time of Day"
    "Absolute time stamping expressed as UTC time"
    FIXED (Some 3%nat)
    [plain_field "ToD" UINT24 24 "Time of Day in seconds"
       (QArith_base.Qmake 1 128) SECONDS].

Definition I002_041 : DataItem :=
  mkDataItem "I002/041" "Antenna Rotation Period"
    "Antenna rotation period as measured between two consecutive North crossings or as averaged during a period of time"
    FIXED (Some 2%nat)
    [plain_field "ARP" UINT16 16 "Antenna Rotation Period"
       (QArith_base.Qmake 1 128) SECONDS].

(** I002/080 as [XmlParser::parse_data_item] builds it: the [extension]
    element is attached to the first field named FX. *)
Definition I002_080 : DataItem :=
  mkDataItem "I002/080" "Warning/Error Conditions"
    "Warning/error conditions affecting the functioning of the radar system itself"
    VARIABLE None
    [plain_field "WE_VALUE" UINT7 7 "Warning/error condition value"
       lsb_default NONE;
     mkField "FX" BOOL 1 "Field Extension" lsb_default NONE [] None
       (Some "FX==1")
       [plain_field "WE_VALUE2" UINT7 7 "Second warning/error condition value"
          lsb_default NONE;
        plain_field "FX2" BOOL 1 "Field Extension" lsb_default NONE]].

Definition I002_090 : DataItem :=
  mkDataItem "I002/090" "Collimation Error"
    "Averaged difference in range and in azimuth for the primary target position with respect to the SSR target position as calculated by the radar station"
    FIXED (Some 2%nat)
    [plain_field "RANGE_ERROR" INT8 8 "Range Error"
       (QArith_base.Qmake 1 128) NAUTICAL_MILES;
     plain_field "AZIMUTH_ERROR" INT8 8 "Azimuth Error"
       (QArith_base.Qmake 360 65536) DEGREES].

Definition cat002_header : CategoryHeader :=
  mkHeader 2 "Monoradar Service Messages"
    "Service messages from monoradar stations (sector crossing, North/South markers, blind zone filtering)"
    "1.2" "2024-03-15".

Definition cat002_validation_rules : list ValidationRule :=
  [mkValidationRule "I002/010" "mandatory" None;
   mkValidationRule "I002/000" "mandatory" None;
   mkValidationRule "I002/020" "conditional" (Some "message_type == 2");
   mkValidationRule "I002/100" "conditional" (Some "message_type == 8");
   mkValidationRule "I002/030" "optional" None;
   mkValidationRule "I002/041" "conditional"
     (Some "message_type == 1 || message_type == 2 && sector == 0");
   mkValidationRule "I002/070" "conditional"
     (Some "message_type == 1 || message_type == 2 && sector == 0");
   mkValidationRule "I002/090" "conditional"
     (Some "message_type == 1 || message_type == 2 && sector == 0")].

(** A category holding the CAT002 profile, rules and the items above. *)
Definition cat002 : AsterixCategory :=
  mkCategory cat002_header cat002_uap
    (<["I002/010" := I002_010]>
       (<["I002/000" := I002_000]>
          (<["I002/020" := I002_020]>
             (<["I002/030" := I002_030]>
                (<["I002/041" := I002_041]>
                   (<["I002/080" := I002_080]>
                      (<["I002/090" := I002_090]> ∅)))))))
    [] cat002_validation_rules.

Definition decoder_with (cat : AsterixCategory) (strict : bool) : AsterixDecoder :=
  mkDecoder (<[h_category (header cat) := cat]> ∅) strict false.

(** ** Inputs of the scenarios *)

(** E1: a CAT002 block of 22 bytes. *)
Definition e1_block : list Z :=
  [0x02; 0x00; 0x16; 0xF0; 0x00; 0x10; 0x01; 0x00; 0x12; 0x34; 0x56; 0x78;
   0x9A; 0xBC; 0x00; 0x00; 0x00; 0x00; 0x00; 0x00; 0x00; 0x00].

(** A context over a whole vector, as [decode_message] builds it. *)
Definition context_over (data : list Z) (cat : option AsterixCategory)
  : ParseContext :=
  new_context data 0 (length data) cat.

(** E3: the two bytes of a Variable item, FX = 1 then FX = 0. *)
Definition e3_bytes : list Z := [0x03; 0x02].

(** E4: a Repetitive item of group length 2 whose group is two octets. *)
Definition e4_item : DataItem :=
  mkDataItem "E4" "Repetitive example" "" REPETITIVE (Some 2%nat)
    [plain_field "HI" UINT8 8 "" lsb_default NONE;
     plain_field "LO" UINT8 8 "" lsb_default NONE].

Definition e4_bytes : list Z := [0x03; 0xAA; 0xBB; 0xCC; 0xDD; 0xEE; 0xFF].

(** A block whose only record selects I002/010 (two bytes) with a single
    byte left. *)
Definition short_fixed_block : list Z := [0x02; 0x00; 0x05; 0x80; 0x01].

(** A record with a sector crossing message type and no I002/020:
    FSPEC 0xC0, SAC/SIC 00 10, MESSAGE_TYPE 2. *)
Definition sector_crossing_without_sector : AsterixMessage :=
  mkMessage 2 None
    [mkParsedDataItem "I002/010" "Data Source Identifier"
       [mkParsedField "SAC" (VU8 0) "System Area Code" NONE true "";
        mkParsedField "SIC" (VU8 16) "System Identification Code" NONE true ""]
       true "";
     mkParsedDataItem "I002/000" "Message Type"
       [mkParsedField "MESSAGE_TYPE" (VU8 2) "Message Type" NONE true ""]
       true ""]
    true "".

(** ** Vocabulary of the statements about signed fields *)

Definition is_signed (t : FieldType) : bool :=
  match t with
  | INT8 | INT16 | INT24 | INT32 => true
  | _ => false
  end.

(** The width that the name of a signed type announces. *)
Definition type_width (t : FieldType) : Z :=
  match t with
  | INT8 => 8
  | INT16 => 16
  | INT24 => 24
  | _ => 32
  end.

Definition int_value (v : FieldValue) : option Z :=
  match v with
  | VU8 v | VU16 v | VU32 v | VI8 v | VI16 v | VI32 v => Some v
  | _ => None
  end.

(** Sign extension as the specification words it: the raw value OR'ed with
    [~((1 << bits) - 1)], read as two's complement. *)
Definition spec_sign_extend (bits : Z) (raw : Z) : Z :=
  Z.lor raw (Z.lnot (Z.shiftl 1 bits - 1)).

Definition signed_field (t : FieldType) (bits : nat) : Field :=
  plain_field "V" t bits "" lsb_default NONE.

(** ** Vocabulary of the statements about the FSPEC *)

Definition fx_set (b : Z) : bool := negb (Z.land b 0x01 =? 0).

(** The bytes [bs] are what the context holds from its cursor on, inside
    both its size and its buffer. *)
Definition at_cursor (c : ParseContext) (bs : list Z) : Prop :=
  (ctx_position c + length bs <= ctx_size c)%nat
  /\ forall (i : nat) (b : Z),
       bs !! i = Some b -> deref c (ctx_position c + i) = Some b.

(** Seventeen FSPEC bytes: sixteen with FX = 1, then one with FX = 0. *)
Definition fspec_chain17 : list Z := (repeat 0x01 16 ++ [0x00])%list.

(** ** Vocabulary of the statements about cursors *)

(** [c'] is [c] with its cursor moved forward or left in place. *)
Definition moved_on (c c' : ParseContext) : Prop :=
  ctx_buffer c' = ctx_buffer c /\ ctx_base c' = ctx_base c
  /\ ctx_size c' = ctx_size c /\ ctx_category c' = ctx_category c
  /\ (ctx_position c <= ctx_position c')%nat.

(** The window of the context lies inside the allocation it points into. *)
Definition inside_buffer (c : ParseContext) : Prop :=
  (ctx_base c + ctx_size c <= length (ctx_buffer c))%nat.

Definition is_fault {A} (o : outcome A) : bool :=
  match o with Fault _ => true | _ => false end.

Definition is_throw {A} (o : outcome A) : bool :=
  match o with Throw _ => true | _ => false end.

(** ** Vocabulary of the statements about failing fields *)




(** What [parse_field] records for a field that it could not read. *)
Definition failure_recorded (pf : ParsedField) : Prop :=
  pf_valid pf = false ->
  pf_value pf = VU8 0
  /\ (pf_error_message pf = "Insufficient data"
      \/ pf_error_message pf = "Cannot extract more than 32 bits").



(** ** Vocabulary of the E1 scenario *)

(** A context over the E1 block with its cursor at [p], as [decode_block]
    has it inside its loop. *)
Definition e1_context (cat : AsterixCategory) (p : nat) : ParseContext :=
  mkContext e1_block 0 22 p (Some cat).

(** The item that a definition gives when its fields decode, in order, to
    [values]. *)
Definition parsed_item (item_def : DataItem) (values : list FieldValue)
  : ParsedDataItem :=
  mkParsedDataItem (di_id item_def) (di_name item_def)
    (zip_with (fun field_def value => field_result field_def value true "")
       (di_fields item_def) values)
    true "".

Definition e1_record1 : list ParsedDataItem :=
  [parsed_item I002_010 [VU8 0x00; VU8 0x10];
   parsed_item I002_000 [VU8 0x01];
   parsed_item I002_020 [VU8 0x00];
   parsed_item I002_030 [VU32 0x123456]].

Definition e1_record2 : list ParsedDataItem :=
  [parsed_item I002_000 [VU8 0x9A];
   parsed_item I002_020 [VU8 0xBC];
   parsed_item I002_030 [VU32 0];
   parsed_item I002_041 [VU16 0]].

Definition valid_message (cat : AsterixCategory) (items : list ParsedDataItem)
  : AsterixMessage :=
  mkMessage (h_category (header cat)) None items true "".

(** ** The rest of [AsterixDecoder] *)

(** [decode_message]: a fresh context over [data]; the handler of its
    [try] overwrites [valid] and [error_message] of the message that was
    default-constructed and given its category. *)
Definition decode_message (self : AsterixDecoder) (category : Z)
    (data : list Z) : outcome AsterixMessage :=
  match categories_ self !! category with
  | None =>
      Ok (mkMessage category None [] false
            ("Unsupported category: " +:+ to_string category))
  | Some cat =>
      match decode_message_internal
              (new_context data 0 (length data) (Some cat)) with
      | (Ok message, _) => Ok message
      | (Throw what, _) => Ok (mkMessage category None [] false what)
      | (Fault f, _) => Fault f
      end
  end.

(** [decode_file], from the point where the file has been read into
    [data]: the loop [while (offset < data.size())] that frames the blocks
    on their length field. [None] means that [fuel] turns were not enough. *)
Fixpoint decode_file_loop (fuel : nat) (self : AsterixDecoder) (data : list Z)
    (offset : nat) (blocks : list AsterixBlock)
  : option (outcome (list AsterixBlock)) :=
  if (offset <? length data)%nat then
    if (length data <? offset + 3)%nat then Some (Ok blocks)
    else
      let block_length :=
        Z.to_nat (Z.lor (Z.shiftl (default 0 (data !! (offset + 1)%nat)) 8)
                        (default 0 (data !! (offset + 2)%nat))) in
      if (length data <? offset + block_length)%nat then Some (Ok blocks)
      else
        match fuel with
        | O => None
        | S fuel' =>
            let block_data := take block_length (drop offset data) in
            match decode_block self block_data with
            | Some (Ok block) =>
                decode_file_loop fuel' self data (offset + block_length)
                  (blocks ++ [block])
            | Some (Throw what) => Some (Throw what)
            | Some (Fault f) => Some (Fault f)
            | None => None
            end
        end
  else Some (Ok blocks).

(** [contents] is [None] when the file cannot be opened. *)
Definition decode_file_fuel (fuel : nat) (self : AsterixDecoder)
    (contents : option (list Z)) : option (outcome (list AsterixBlock)) :=
  match contents with
  | None => Some (Ok [])
  | Some data => decode_file_loop fuel self data 0 []
  end.

(** ** The tables of [XmlParser] ([xml_parser.cpp]) *)

Module XmlParser.



Definition string_to_unit (unit_str : string) : Unit :=
  if String.eqb unit_str "s" then SECONDS
  else if String.eqb unit_str "NM" then NAUTICAL_MILES
  else if String.eqb unit_str "degrees" then DEGREES
  else if String.eqb unit_str "FL" then FLIGHT_LEVEL
  else if String.eqb unit_str "ft" then FEET
  else if String.eqb unit_str "kts" then KNOTS
  else if String.eqb unit_str "m/s" then METERS_PER_SECOND
  else NONE.

End XmlParser.

(** ** [skydecoder::utils] ([utils.cpp]) *)

Module utils.

(** The digits of [std::hex]. *)
Definition hex_digit (d : Z) : ascii :=
  match String.get (Z.to_nat d) "0123456789abcdef" with
  | Some c => c
  | None => "0"%char
  end.

(** [to_hex_string(const std::vector<uint8_t>&)]: every byte is written
    with [std::setw(2)] and fill character '0'. *)
Definition to_hex_string (data : list Z) : string :=
  fold_right
    (fun byte s =>
       String (hex_digit (byte / 16)) (String (hex_digit (byte mod 16)) s))
    "" data.

Definition hex_value (c : ascii) : option Z :=
  let n := Z.of_nat (nat_of_ascii c) in
  if (48 <=? n) && (n <=? 57) then Some (n - 48)
  else if (97 <=? n) && (n <=? 102) then Some (n - 87)
  else if (65 <=? n) && (n <=? 70) then Some (n - 55)
  else None.

Fixpoint leading_hex_digits (s : string) : list Z :=
  match s with
  | String c s' =>
      match hex_value c with
      | Some d => d :: leading_hex_digits s'
      | None => []
      end
  | EmptyString => []
  end.

(** [std::stoul(str, nullptr, 16)] with a 64-bit [unsigned long]: optional
    white space, sign and "0x" prefix (taken as a prefix only in front of
    a hexadecimal digit), then the longest run of hexadecimal digits; a
    minus sign negates modulo [2^64]. *)
Definition stoul16 (str : string) : outcome Z :=
  let s := skip_spaces str in
  let '(negative, s) :=
    match s with
    | String "-" s' => (true, s')
    | String "+" s' => (false, s')
    | _ => (false, s)
    end in
  let s :=
    match s with
    | String "0" (String x (String d s')) =>
        if (Ascii.eqb x "x" || Ascii.eqb x "X") && bool_decide (is_Some (hex_value d))
        then String d s' else s
    | _ => s
    end in
  match leading_hex_digits s with
  | [] => Throw "stoul"
  | ds =>
      let v := fold_left (fun acc d => 16 * acc + d) ds 0 in
      if 2 ^ 64 <=? v then Throw "stoul"
      else Ok (if negative : bool then (2 ^ 64 - v) mod 2 ^ 64 else v)
  end.

(** The loop [for (i = 0; i < clean_hex.length(); i += 2)] of
    [from_hex_string], which converts [clean_hex.substr(i, 2)]. *)
Fixpoint from_hex_pairs (clean_hex : string) : outcome (list Z) :=
  match clean_hex with
  | EmptyString => Ok []
  | String a EmptyString =>
      match stoul16 (String a EmptyString) with
      | Ok v => Ok [cast_unsigned 8 v]
      | Throw what => Throw what
      | Fault f => Fault f
      end
  | String a (String b rest) =>
      match stoul16 (String a (String b EmptyString)) with
      | Ok v =>
          match from_hex_pairs rest with
          | Ok bytes => Ok (cast_unsigned 8 v :: bytes)
          | other => other
          end
      | Throw what => Throw what
      | Fault f => Fault f
      end
  end.

Definition from_hex_string (hex : string) : outcome (list Z) :=
  let clean_hex := remove_spaces hex in
  let clean_hex :=
    if String.eqb (String.substring 0 2 clean_hex) "0x"
       || String.eqb (String.substring 0 2 clean_hex) "0X"
    then String.substring 2 (String.length clean_hex - 2) clean_hex
    else clean_hex in
  let clean_hex :=
    if (String.length clean_hex mod 2 =? 0)%nat then clean_hex
    else "0" +:+ clean_hex in
  from_hex_pairs clean_hex.

(** [validate_checksum]: on an empty vector [data.size() - 1] wraps around
    and [data.back()] has no element to return. *)
Definition validate_checksum (data : list Z) : outcome bool :=
  match data with
  | [] => Fault OutOfRangeRead
  | _ =>
      let checksum := fold_left Z.lxor (removelast data) 0 in
      Ok (checksum =? List.last data 0)
  end.

(** [is_valid_mode_a_code]: the loop over the four octal digits. *)
Definition is_valid_mode_a_code (code : Z) : bool :=
  forallb
    (fun i =>
       let digit := Z.land (Z.shiftr code (3 * i)) 0x07 in
       negb (7 <? digit))
    [0; 1; 2; 3].

(** [extract_bits_from_bytes]: a bit whose byte is past the end reads as
    0. [1 << (num_bits - 1 - i)] shifts an [int], which is defined for at
    most 31 positions; [None] stands for a shift that is not. *)
Fixpoint extract_bits_from_bytes_loop (data : list Z)
    (start_bit num_bits todo : nat) (result : Z) : option Z :=
  match todo with
  | O => Some result
  | S todo' =>
      let i := (num_bits - todo)%nat in
      let byte_idx := ((start_bit + i) / 8)%nat in
      let bit_idx := (7 - (start_bit + i) mod 8)%nat in
      match data !! byte_idx with
      | Some b =>
          if negb (Z.land b (Z.shiftl 1 (Z.of_nat bit_idx)) =? 0) then
            if (32 <=? num_bits - 1 - i)%nat then None
            else extract_bits_from_bytes_loop data start_bit num_bits todo'
                   (Z.lor result (Z.shiftl 1 (Z.of_nat (num_bits - 1 - i))))
          else extract_bits_from_bytes_loop data start_bit num_bits todo' result
      | None => extract_bits_from_bytes_loop data start_bit num_bits todo' result
      end
  end.

Definition extract_bits_from_bytes (data : list Z) (start_bit num_bits : nat)
  : option Z :=
  extract_bits_from_bytes_loop data start_bit num_bits num_bits 0.

(** One turn of the loop of [set_bits_in_bytes]: the vector is grown with
    zero bytes up to the byte of bit [p], then the bit is set or cleared. *)
Definition put_bit (data : list Z) (p : nat) (bit : bool) : list Z :=
  let byte_idx := (p / 8)%nat in
  let bit_idx := (7 - p mod 8)%nat in
  let data :=
    if (length data <=? byte_idx)%nat
    then (data ++ replicate (byte_idx + 1 - length data) 0)%list
    else data in
  let b := default 0 (data !! byte_idx) in
  let b' :=
    if bit then Z.lor b (Z.shiftl 1 (Z.of_nat bit_idx))
    else Z.land b (Z.lnot (Z.shiftl 1 (Z.of_nat bit_idx))) in
  <[byte_idx := cast_unsigned 8 b']> data.

(** [set_bits_in_bytes], which returns the vector that it was given by
    reference; [None] as for [extract_bits_from_bytes]. *)
Fixpoint set_bits_in_bytes_loop (data : list Z) (start_bit num_bits todo : nat)
    (value : Z) : option (list Z) :=
  match todo with
  | O => Some data
  | S todo' =>
      let i := (num_bits - todo)%nat in
      if (32 <=? num_bits - 1 - i)%nat then None
      else
        set_bits_in_bytes_loop
          (put_bit data (start_bit + i)
             (negb (Z.land value (Z.shiftl 1 (Z.of_nat (num_bits - 1 - i)))
                    =? 0)))
          start_bit num_bits todo' value
  end.

Definition set_bits_in_bytes (data : list Z) (start_bit num_bits : nat)
    (value : Z) : option (list Z) :=
  set_bits_in_bytes_loop data start_bit num_bits num_bits value.

(** [MessageStatistics] and [analyze_messages]; [counts[key]++] on an
    [unordered_map] starts an absent key at zero. *)
Record MessageStatistics : Type := mkStatistics {
  total_messages : nat;
  valid_messages : nat;
  invalid_messages : nat;
  category_counts : gmap Z nat;
  data_item_counts : gmap string nat;
  errors : list string
}.

Definition increment `{Countable K} (counts : gmap K nat) (key : K)
  : gmap K nat :=
  <[key := S (default 0%nat (counts !! key))]> counts.

Definition analyze_message (stats : MessageStatistics)
    (message : AsterixMessage) : MessageStatistics :=
  let stats :=
    if msg_valid message
    then mkStatistics (total_messages stats) (S (valid_messages stats))
           (invalid_messages stats) (category_counts stats)
           (data_item_counts stats) (errors stats)
    else mkStatistics (total_messages stats) (valid_messages stats)
           (S (invalid_messages stats)) (category_counts stats)
           (data_item_counts stats)
           (errors stats ++ [msg_error_message message]) in
  mkStatistics (total_messages stats) (valid_messages stats)
    (invalid_messages stats)
    (increment (category_counts stats) (msg_category message))
    (fold_left (fun counts item => increment counts (pdi_id item))
       (msg_data_items message) (data_item_counts stats))
    (errors stats).

Definition analyze_messages (messages : list AsterixMessage)
  : MessageStatistics :=
  fold_left analyze_message messages
    (mkStatistics (length messages) 0 0 ∅ ∅ []).

End utils.

(** ** Vocabulary of the statements about validation and framing *)

(** Every rule of type "mandatory" names an item of the message. *)
Definition mandatory_present (message : AsterixMessage)
    (rules : list ValidationRule) : bool :=
  forallb
    (fun rule =>
       negb (String.eqb (vr_type rule) "mandatory")
       || item_present message (vr_field rule))
    rules.

(** The length field of a block, as [decode_file] reads it. *)
Definition declared_length (block_data : list Z) : nat :=
  Z.to_nat (Z.lor (Z.shiftl (default 0 (block_data !! 1%nat)) 8)
                  (default 0 (block_data !! 2%nat))).

(** A block whose length field is its own size. *)
Definition well_framed (block_data : list Z) : Prop :=
  (3 <= length block_data)%nat
  /\ declared_length block_data = length block_data.

Definition is_byte (b : Z) : Prop := 0 <= b < 256.

(** ** Vocabulary of the statements about bits *)

(** Bit [bit] of a byte, as the tests [byte & (1 << bit)] read it. *)
Definition bit_set (b : Z) (bit : nat) : bool :=
  negb (Z.land b (Z.shiftl 1 (Z.of_nat bit)) =? 0).

(** The selector bits of an FSPEC in the order in which [parse_uap_items]
    walks them: bits 7 to 1 of every byte but the last, bits 7 to 0 of the
    last byte. *)
Fixpoint fspec_bits (fspec : list Z) : list bool :=
  match fspec with
  | [] => []
  | b :: rest =>
      match rest with
      | [] => map (bit_set b) [7; 6; 5; 4; 3; 2; 1; 0]%nat
      | _ => (map (bit_set b) [7; 6; 5; 4; 3; 2; 1]%nat ++ fspec_bits rest)%list
      end
  end.

(** The elements of [items] whose bit, at the same rank in [bits], is set. *)
Definition select {A : Type} (bits : list bool) (items : list A) : list A :=
  map snd (List.filter fst (zip bits items)).

(** Bit [p] of a byte vector counted from the most significant bit of its
    first byte; [false] past the end. *)
Definition bit_at (data : list Z) (p : nat) : bool :=
  match data !! (p / 8)%nat with
  | Some b => Z.testbit b (Z.of_nat (7 - p mod 8))
  | None => false
  end.

(** The number that a run of bytes spells in big-endian order. *)
Definition big_endian (bytes : list Z) : Z :=
  fold_left (fun acc b => 256 * acc + b) bytes 0.

Definition is_unsigned (t : FieldType) : bool :=
  match t with
  | UINT8 | UINT16 | UINT24 | UINT32
  | UINT1 | UINT2 | UINT3 | UINT4 | UINT5 | UINT6 | UINT7 | UINT12 | UINT14 =>
      true
  | _ => false
  end.

(** ** Vocabulary of the statements about statistics *)

(** How many elements of a list satisfy a test. *)
Definition count_if {A : Type} (test : A -> bool) (l : list A) : nat :=
  length (List.filter test l).

(** ** Vocabulary of the statements about the body of an item *)







(** * Properties *)

(** ** Validation *)

Lemma validate_conditional_fields_loop_true message rules :
  validate_conditional_fields_loop message rules = true.
Proof.
  induction rules as [|rule rest IH]; simpl; [reflexivity|].
  now destruct (_ && _).
Qed.

Lemma validate_conditional_fields_true self message category :
  validate_conditional_fields self message category = true.
Proof. apply validate_conditional_fields_loop_true. Qed.

(** C9: the conditional rules of a category are never consulted:
    [validate_conditional_fields] answers [true] for every message and
    every category, and in strict mode [validate_message] accepts the
    record decoded from [C0 00 10 02] (MESSAGE_TYPE = 2, no I002/020)
    although CAT002 declares I002/020 conditional on "message_type == 2". *)
Theorem C9_conditional_rules_not_enforced :
  (forall self message category,
      validate_conditional_fields self message category = true)
  /\ In (mkValidationRule "I002/020" "conditional" (Some "message_type == 2"))
        (validation_rules cat002)
  /\ fst (decode_message_internal
            (context_over [0xC0; 0x00; 0x10; 0x02] (Some cat002)))
     = Ok sector_crossing_without_sector
  /\ item_present sector_crossing_without_sector "I002/020" = false
  /\ validate_message (decoder_with cat002 true) sector_crossing_without_sector
     = true.
Proof.
  split; [exact validate_conditional_fields_true|].
  split; [simpl; tauto|].
  repeat split; vm_compute; reflexivity.
Qed.

(** ** Blocks without a record *)

(** C8: a block whose declared length is 3 and whose category is
    registered decodes to zero records, but [block.valid] is never
    assigned on that path, so that the flag is indeterminate and not
    [true]. *)
Theorem C8_header_only_block (self : AsterixDecoder) (cat : AsterixCategory)
    (c : Z) (rest : list Z) :
  categories_ self !! c = Some cat ->
  decode_block self (c :: 0x00 :: 0x03 :: rest)
  = Some (Ok (mkBlock (Some c) (Some 3) None [])).
Proof.
  intros Hcat. unfold decode_block, decode_block_fuel.
  cbn [length Nat.ltb Nat.leb].
  unfold read_uint8, read_uint16, has_data, deref, context_over, new_context.
  cbn. rewrite Hcat. reflexivity.
Qed.

Lemma C8_header_only_block_witness :
  categories_ (decoder_with cat002 false) !! 2 = Some cat002
  /\ decode_block (decoder_with cat002 false) [0x02; 0x00; 0x03]
     = Some (Ok (mkBlock (Some 2) (Some 3) None [])).
Proof.
  split; [vm_compute; reflexivity|].
  apply (C8_header_only_block (decoder_with cat002 false) cat002 2 []).
  vm_compute. reflexivity.
Defined.

(** ** Items read at a bit offset *)

(** C2: on the bytes [03 02] the Variable item I002/080 (WE_VALUE: 7 bits,
    FX: 1 bit, extension WE_VALUE2/FX2 on "FX==1") consumes two bytes, but
    FX is read from the most significant bit of the first byte instead of
    bit offset 7: it decodes as [false], the extension is not parsed, and
    the item holds WE_VALUE = 1 and FX = false only. *)
Theorem C2_variable_item_fx_read_at_byte_start :
  parse_data_item I002_080 (context_over e3_bytes None)
  = (Ok (mkParsedDataItem "I002/080" "Warning/Error Conditions"
           [mkParsedField "WE_VALUE" (VU8 1) "Warning/error condition value"
              NONE true "";
            mkParsedField "FX" (VBool false) "Field Extension" NONE true ""]
           true ""),
     set_position (context_over e3_bytes None) 2)
  /\ extract_bits [0x03] 7 1 = Ok 1.
Proof. split; vm_compute; reflexivity. Qed.

(** ** Repetitive items *)

(** C4: on [03 AA BB CC DD EE FF] a Repetitive item of length 2 parses its
    field block once, starting on the repetition byte itself, and leaves
    the cursor [3 * 2] bytes after the start of the item, the repetition
    byte included: it yields the single group {03 AA} and stops before
    [FF]. *)
Theorem C4_repetitive_item_parsed_once :
  parse_data_item e4_item (context_over e4_bytes None)
  = (Ok (mkParsedDataItem "E4" "Repetitive example"
           [mkParsedField "HI" (VU8 0x03) "" NONE true "";
            mkParsedField "LO" (VU8 0xAA) "" NONE true ""]
           true ""),
     set_position (context_over e4_bytes None) 6).
Proof. vm_compute; reflexivity. Qed.

(** ** Reads outside the buffer *)

(** C6: with one byte left in the buffer, the Fixed item I002/010 (length 2)
    is given a sub-context of size 2 without any check against the bytes
    that remain, and its second field is read outside the buffer. *)
Theorem C6_fixed_item_reads_past_buffer :
  let context :=
    set_position (context_over short_fixed_block (Some cat002)) 4 in
  has_data context 2 = false
  /\ determine_length I002_010 context = (Ok 2%nat, context)
  /\ parse_data_item I002_010 context = (Fault OutOfRangeRead, context).
Proof. repeat split; vm_compute; reflexivity. Qed.

(** ** Signed fields *)

Lemma land_pow2_testbit (a k : Z) :
  0 <= k -> Z.land a (2 ^ k) = if Z.testbit a k then 2 ^ k else 0.
Proof.
  intros Hk. apply Z.bits_inj'. intros n Hn.
  rewrite Z.land_spec, Z.pow2_bits_eqb by lia.
  destruct (Z.eqb_spec k n) as [->|Hne].
  - rewrite andb_true_r. destruct (Z.testbit a n) eqn:E.
    + now rewrite Z.pow2_bits_true.
    + now rewrite Z.bits_0.
  - rewrite andb_false_r. destruct (Z.testbit a k).
    + now rewrite Z.pow2_bits_false.
    + now rewrite Z.bits_0.
Qed.

Lemma testbit_top (a k : Z) :
  0 <= k -> 0 <= a < 2 ^ (k + 1) -> Z.testbit a k = (2 ^ k <=? a).
Proof.
  intros Hk Ha.
  rewrite Z.pow_add_r, Z.pow_1_r in Ha by lia.
  assert (Hp : 0 < 2 ^ k) by (apply Z.pow_pos_nonneg; lia).
  destruct (Z.leb_spec (2 ^ k) a) as [Hle|Hlt].
  - apply Z.testbit_true; [lia|].
    assert (a / 2 ^ k = 1) as ->; [|reflexivity].
    symmetry. apply (Z.div_unique a (2 ^ k) 1 (a - 2 ^ k)); lia.
  - apply Z.testbit_false; [lia|].
    rewrite Z.div_small by lia. reflexivity.
Qed.

Lemma small_bits_above (a w n : Z) :
  0 <= a < 2 ^ w -> w <= n -> Z.testbit a n = false.
Proof.
  intros Ha Hn.
  destruct (Z.eq_dec a 0) as [->|Hne]; [apply Z.bits_0|].
  destruct (Z.ltb_spec w 0) as [Hw|Hw].
  { rewrite Z.pow_neg_r in Ha by lia. lia. }
  apply Z.bits_above_log2; [lia|].
  assert (Z.log2 a < w) by (apply Z.log2_lt_pow2; lia). lia.
Qed.

Lemma lor_disjoint_high (a k w : Z) :
  0 <= w -> 0 <= a < 2 ^ w -> Z.lor a (k * 2 ^ w) = a + k * 2 ^ w.
Proof.
  intros Hw Ha.
  assert (Hd : Z.land a (k * 2 ^ w) = 0).
  { apply Z.bits_inj'. intros n Hn. rewrite Z.land_spec, Z.bits_0.
    destruct (Z.ltb_spec n w).
    - rewrite Z.mul_pow2_bits_low by lia. apply andb_false_r.
    - rewrite (small_bits_above a w n) by lia. reflexivity. }
  rewrite <- Z.lxor_lor by exact Hd.
  symmetry. apply Z.add_nocarry_lxor. exact Hd.
Qed.

Lemma spec_sign_extend_eq (w raw : Z) :
  0 <= w -> 0 <= raw < 2 ^ w -> spec_sign_extend w raw = raw - 2 ^ w.
Proof.
  intros Hw Hraw. unfold spec_sign_extend.
  rewrite Z.shiftl_1_l.
  replace (Z.lnot (2 ^ w - 1)) with ((-1) * 2 ^ w)
    by (unfold Z.lnot; lia).
  rewrite lor_disjoint_high by lia. lia.
Qed.

(** What the three masked cases of [convert_raw_value] compute, for a type
    of announced width [w] stored on [s] bits. *)
Lemma masked_cast (w s k raw : Z) :
  0 < w <= s -> 0 <= k -> 0 <= raw < 2 ^ w ->
  (k + 1) * 2 ^ w mod 2 ^ s = 0 ->
  (if negb (Z.land raw (2 ^ (w - 1)) =? 0)
   then cast_signed s (Z.lor raw (k * 2 ^ w))
   else cast_signed s raw)
  = if Z.testbit raw (w - 1) then raw - 2 ^ w else raw.
Proof.
  intros Hws Hk Hraw Hmask.
  assert (Hw1 : 0 < 2 ^ (w - 1)) by (apply Z.pow_pos_nonneg; lia).
  assert (Hw : 2 ^ w = 2 * 2 ^ (w - 1)).
  { replace w with ((w - 1) + 1) at 1 by lia.
    rewrite Z.pow_add_r, Z.pow_1_r by lia. lia. }
  assert (Hs1 : 2 ^ (w - 1) <= 2 ^ (s - 1)) by (apply Z.pow_le_mono_r; lia).
  assert (Hs : 2 ^ s = 2 * 2 ^ (s - 1)).
  { replace s with ((s - 1) + 1) at 1 by lia.
    rewrite Z.pow_add_r, Z.pow_1_r by lia. lia. }
  rewrite land_pow2_testbit by lia.
  rewrite (testbit_top raw (w - 1)) by (replace (w - 1 + 1) with w; lia).
  destruct (Z.leb_spec (2 ^ (w - 1)) raw) as [Hneg|Hpos].
  - replace (2 ^ (w - 1) =? 0) with false by (symmetry; apply Z.eqb_neq; lia).
    cbn [negb]. rewrite lor_disjoint_high by lia.
    unfold cast_signed.
    replace (raw + k * 2 ^ w) with ((raw - 2 ^ w) + (k + 1) * 2 ^ w) by lia.
    rewrite <- Zplus_mod_idemp_r, Hmask, Z.add_0_r.
    replace ((raw - 2 ^ w) mod 2 ^ s) with (raw - 2 ^ w + 2 ^ s).
    + destruct (Z.ltb_spec (raw - 2 ^ w + 2 ^ s) (2 ^ (s - 1))); lia.
    + apply (Z.mod_unique _ _ (-1)); lia.
  - cbn [Z.eqb negb]. unfold cast_signed.
    rewrite Z.mod_small by lia.
    destruct (Z.ltb_spec raw (2 ^ (s - 1))); lia.
Qed.

(** C3 (as the code has it): a signed field is sign-extended from the
    width that its type announces (8, 16, 24 or 32), whatever its declared
    [bits]: the sign bit is bit [type_width - 1] of the raw value. With
    [bits] equal to that width the result is the raw value OR'ed with
    [~((1 << bits) - 1)] whenever bit [bits - 1] is set; with fewer
    [bits] the raw value is returned as it is, never negative. *)
Theorem C3_sign_extension_from_type_width (field : Field) (raw : Z) :
  is_signed (f_type field) = true ->
  (1 <= f_bits field)%nat ->
  Z.of_nat (f_bits field) <= type_width (f_type field) ->
  0 <= raw < 2 ^ Z.of_nat (f_bits field) ->
  let bits := Z.of_nat (f_bits field) in
  let w := type_width (f_type field) in
  let decoded := int_value (convert_raw_value raw field) in
  decoded = Some (if Z.testbit raw (w - 1) then spec_sign_extend w raw else raw)
  /\ (bits = w -> Z.testbit raw (bits - 1) = true ->
      decoded = Some (spec_sign_extend bits raw))
  /\ (bits < w -> decoded = Some raw).
Proof.
  intros Hsigned Hbits Hle Hraw bits w decoded.
  subst bits w decoded.
  assert (Hrw : 0 <= raw < 2 ^ type_width (f_type field)).
  { split; [lia|].
    apply Z.lt_le_trans with (2 ^ Z.of_nat (f_bits field)); [apply Hraw|].
    apply Z.pow_le_mono_r; lia. }
  assert (Hmain : int_value (convert_raw_value raw field)
    = Some (if Z.testbit raw (type_width (f_type field) - 1)
            then spec_sign_extend (type_width (f_type field)) raw else raw)).
  { rewrite spec_sign_extend_eq by lia.
    unfold convert_raw_value.
    destruct (f_type field); try discriminate Hsigned;
      cbn [type_width] in *.
    - pose proof (masked_cast 8 8 0xFFFFFF raw) as H.
      change (0xFFFFFF * 2 ^ 8) with 0xFFFFFF00 in H.
      change (2 ^ (8 - 1)) with 0x80 in H.
      rewrite <- H by (try reflexivity; lia).
      now destruct (negb _).
    - pose proof (masked_cast 16 16 0xFFFF raw) as H.
      change (0xFFFF * 2 ^ 16) with 0xFFFF0000 in H.
      change (2 ^ (16 - 1)) with 0x8000 in H.
      rewrite <- H by (try reflexivity; lia).
      now destruct (negb _).
    - pose proof (masked_cast 24 32 0xFF raw) as H.
      change (0xFF * 2 ^ 24) with 0xFF000000 in H.
      change (2 ^ (24 - 1)) with 0x800000 in H.
      rewrite <- H by (try reflexivity; lia).
      now destruct (negb _).
    - cbn [int_value]. f_equal.
      rewrite (testbit_top raw (32 - 1)) by (cbn; lia).
      unfold cast_signed. rewrite Z.mod_small by lia.
      change (2 ^ (32 - 1)) with 2147483648.
      change (2 ^ 32) with 4294967296 in *.
      destruct (Z.ltb_spec raw 2147483648), (Z.leb_spec 2147483648 raw); lia. }
  split; [exact Hmain|]. split.
  - intros Heq Htop. rewrite Hmain, <- Heq, Htop. reflexivity.
  - intros Hlt. rewrite Hmain.
    rewrite (small_bits_above raw (Z.of_nat (f_bits field))) by lia.
    reflexivity.
Qed.

Lemma C3_sign_extension_from_type_width_witness :
  is_signed INT8 = true
  /\ int_value (convert_raw_value 0xFF (signed_field INT8 8)) = Some (-1).
Proof.
  split; [reflexivity|].
  destruct (C3_sign_extension_from_type_width (signed_field INT8 8) 0xFF)
    as [_ [H _]].
  - reflexivity.
  - cbn. lia.
  - cbn. lia.
  - cbn. lia.
  - apply H; reflexivity.
Defined.

(** C3 fails as stated: an INT8 field declared on 4 bits whose raw value
    is 0xF has its bit 3 set, yet decodes to 15 and not to the value -1
    that OR'ing with [~((1 << 4) - 1)] gives. *)
Lemma C3_counterexample_int8_on_four_bits :
  is_signed (f_type (signed_field INT8 4)) = true
  /\ Z.testbit 0xF (4 - 1) = true
  /\ spec_sign_extend 4 0xF = -1
  /\ convert_raw_value 0xF (signed_field INT8 4) = VI8 15
  /\ int_value (convert_raw_value 0xF (signed_field INT8 4))
     <> Some (spec_sign_extend 4 0xF).
Proof. repeat split; try reflexivity. vm_compute. discriminate. Qed.

(** ** The field specification *)

Lemma set_position_set_position c p q :
  set_position (set_position c p) q = set_position c q.
Proof. reflexivity. Qed.

Lemma at_cursor_cons c b bs :
  at_cursor c (b :: bs) ->
  has_data c 1 = true
  /\ read_uint8 c = (Ok b, set_position c (ctx_position c + 1))
  /\ at_cursor (set_position c (ctx_position c + 1)) bs.
Proof.
  intros [Hsize Hbytes]. cbn [length] in Hsize.
  assert (Hhas : has_data c 1 = true).
  { unfold has_data. apply Nat.leb_le. lia. }
  split; [exact Hhas|]. split.
  - unfold read_uint8. rewrite Hhas. cbn [negb].
    pose proof (Hbytes 0%nat b eq_refl) as H0.
    rewrite Nat.add_0_r in H0. rewrite H0. reflexivity.
  - split; cbn [ctx_position set_position ctx_size]; [lia|].
    intros i x Hx. pose proof (Hbytes (S i) x Hx) as H.
    unfold deref in *. cbn [ctx_buffer ctx_base set_position].
    rewrite <- H. f_equal. lia.
Qed.

Lemma parse_field_specification_loop_spec (bs : list Z) :
  forall (more : nat) (acc : list Z) (c : ParseContext),
    at_cursor c bs -> bs <> [] -> (length bs <= more)%nat ->
    Forall (fun b => fx_set b = true) (removelast bs) ->
    fx_set (List.last bs 0) = false \/ length bs = more ->
    parse_field_specification_loop more acc c
    = (Ok (acc ++ bs)%list, set_position c (ctx_position c + length bs)).
Proof.
  induction bs as [|b bs IH]; intros more acc c Hat Hne Hlen Hfx Hend;
    [congruence|].
  destruct more as [|more]; [cbn in Hlen; lia|].
  destruct (at_cursor_cons c b bs Hat) as (Hhas & Hread & Hat').
  cbn [parse_field_specification_loop]. rewrite Hhas. cbn [negb].
  unfold bind. rewrite Hread.
  destruct bs as [|b' bs].
  - cbn [length List.last removelast] in *.
    destruct (Z.land b 1 =? 0) eqn:Eb; [reflexivity|].
    destruct Hend as [Hend|Hend].
    + unfold fx_set in Hend. rewrite Eb in Hend. discriminate.
    + assert (more = 0%nat) as -> by lia. reflexivity.
  - assert (Hb : fx_set b = true).
    { cbn [removelast] in Hfx. now inversion Hfx. }
    unfold fx_set in Hb. apply negb_true_iff in Hb. rewrite Hb.
    rewrite (IH more (acc ++ [b])%list); try assumption.
    + rewrite <- app_assoc. cbn [app ctx_position set_position length].
      rewrite set_position_set_position. do 2 f_equal. lia.
    + discriminate.
    + cbn [length] in *. lia.
    + cbn [removelast] in Hfx. now inversion Hfx.
    + cbn [length List.last] in *. destruct Hend; [now left|right; lia].
Qed.

(** A chain that the data cuts short: every byte that is left has FX = 1
    and there are fewer of them than the loop would read. *)
Lemma parse_field_specification_loop_underrun (bs : list Z) :
  forall (more : nat) (acc : list Z) (c : ParseContext),
    at_cursor c bs -> (ctx_position c + length bs = ctx_size c)%nat ->
    (length bs < more)%nat ->
    Forall (fun b => fx_set b = true) bs ->
    parse_field_specification_loop more acc c
    = (Throw "Insufficient data for FSPEC",
       set_position c (ctx_position c + length bs)).
Proof.
  induction bs as [|b bs IH]; intros more acc c Hat Hsize Hlen Hfx;
    (destruct more as [|more]; [cbn in Hlen; lia|]);
    cbn [parse_field_specification_loop].
  - cbn [length] in Hsize. unfold has_data.
    destruct (Nat.leb_spec (ctx_position c + 1) (ctx_size c)); [lia|].
    cbn [negb length]. destruct c. unfold set_position. cbn. do 2 f_equal. lia.
  - destruct (at_cursor_cons c b bs Hat) as (Hhas & Hread & Hat').
    rewrite Hhas. cbn [negb]. unfold bind. rewrite Hread.
    inversion Hfx as [|? ? Hb Hfx']; subst.
    unfold fx_set in Hb. apply negb_true_iff in Hb. rewrite Hb.
    rewrite (IH more (acc ++ [b])%list); [| exact Hat' | | | exact Hfx'].
    + cbn [ctx_position set_position length].
      rewrite set_position_set_position. do 2 f_equal. lia.
    + cbn [ctx_position set_position ctx_size length] in *. lia.
    + cbn [length] in Hlen. lia.
Qed.

(** The loop has one exception of its own, and the read that follows the
    test of [has_data] cannot throw. *)
Lemma parse_field_specification_loop_throws (more : nat) :
  forall (acc : list Z) (c c' : ParseContext) (what : string),
    parse_field_specification_loop more acc c = (Throw what, c') ->
    what = "Insufficient data for FSPEC" /\ has_data c' 1 = false.
Proof.
  induction more as [|more IH]; intros acc c c' what;
    cbn [parse_field_specification_loop]; [discriminate|].
  destruct (has_data c 1) eqn:Hhas; cbn [negb].
  - unfold bind, read_uint8. rewrite Hhas. cbn [negb].
    destruct (deref c (ctx_position c)) as [b|]; [|discriminate].
    destruct (Z.land b 1 =? 0); [discriminate|]. apply IH.
  - intros [= <- <-]. split; [reflexivity|exact Hhas].
Qed.

(** C7 (as the code has it): the FSPEC is read byte by byte while the FX
    bit of the byte just read is 1, and reading stops after 16 bytes: the
    result is the run of bytes up to and including the first one with
    FX = 0, or, when the first 16 bytes all have FX = 1, those 16 bytes,
    returned without any error. When the data ends on fewer than 16 bytes
    that all have FX = 1, the exception "Insufficient data for FSPEC" is
    thrown with the cursor at the end of the data; and this is the only
    exception that reading the FSPEC throws, always with no byte left. *)
Theorem C7_fspec_ends_at_fx_clear_or_sixteen (c : ParseContext) (bs : list Z) :
  (at_cursor c bs -> bs <> [] -> (length bs <= 16)%nat ->
   Forall (fun b => fx_set b = true) (removelast bs) ->
   fx_set (List.last bs 0) = false \/ length bs = 16%nat ->
   parse_field_specification c
   = (Ok bs, set_position c (ctx_position c + length bs)))
  /\ (at_cursor c bs -> (ctx_position c + length bs = ctx_size c)%nat ->
      (length bs < 16)%nat ->
      Forall (fun b => fx_set b = true) bs ->
      parse_field_specification c
      = (Throw "Insufficient data for FSPEC",
         set_position c (ctx_position c + length bs)))
  /\ (forall what c',
        parse_field_specification c = (Throw what, c') ->
        what = "Insufficient data for FSPEC" /\ has_data c' 1 = false).
Proof.
  split; [|split].
  - intros Hat Hne Hlen Hfx Hend.
    apply (parse_field_specification_loop_spec bs 16 [] c); assumption.
  - intros Hat Hsize Hlen Hfx.
    apply (parse_field_specification_loop_underrun bs 16 [] c); assumption.
  - intros what c'. apply parse_field_specification_loop_throws.
Qed.

Lemma C7_fspec_ends_at_fx_clear_or_sixteen_witness :
  (at_cursor (context_over fspec_chain17 None) (repeat 0x01 16)
   /\ parse_field_specification (context_over fspec_chain17 None)
      = (Ok (repeat 0x01 16),
         set_position (context_over fspec_chain17 None) 16))
  /\ (at_cursor (context_over [0x01; 0x03] None) [0x01; 0x03]
      /\ parse_field_specification (context_over [0x01; 0x03] None)
         = (Throw "Insufficient data for FSPEC",
            set_position (context_over [0x01; 0x03] None) 2)).
Proof.
  assert (Hat : at_cursor (context_over fspec_chain17 None) (repeat 0x01 16)).
  { split; [cbn; lia|]. intros i b Hb.
    do 16 (destruct i as [|i]; [cbn in Hb; injection Hb as <-; reflexivity|]).
    cbn in Hb. discriminate. }
  assert (Hcut : at_cursor (context_over [0x01; 0x03] None) [0x01; 0x03]).
  { split; [cbn; lia|]. intros i b Hb.
    do 2 (destruct i as [|i]; [cbn in Hb; injection Hb as <-; reflexivity|]).
    cbn in Hb. discriminate. }
  split; (split; [assumption|]).
  - apply (C7_fspec_ends_at_fx_clear_or_sixteen
             (context_over fspec_chain17 None) (repeat 0x01 16)).
    + exact Hat.
    + discriminate.
    + cbn. lia.
    + repeat constructor.
    + right. reflexivity.
  - apply (C7_fspec_ends_at_fx_clear_or_sixteen
             (context_over [0x01; 0x03] None) [0x01; 0x03]).
    + exact Hcut.
    + reflexivity.
    + cbn. lia.
    + repeat constructor.
Defined.

(** C7 fails as stated: a chain of seventeen bytes whose first sixteen
    have FX = 1 is not rejected; the first sixteen bytes are returned as
    the FSPEC and the seventeenth is left in the cursor. *)
Lemma C7_counterexample_chain_of_seventeen :
  length fspec_chain17 = 17%nat
  /\ parse_field_specification (context_over fspec_chain17 None)
     = (Ok (repeat 0x01 16), set_position (context_over fspec_chain17 None) 16)
  /\ (forall what c,
        parse_field_specification (context_over fspec_chain17 None)
        <> (Throw what, c)).
Proof.
  split; [reflexivity|]. split; [vm_compute; reflexivity|].
  intros what c. vm_compute. discriminate.
Qed.

(** ** How the cursor moves *)

Lemma moved_on_refl c : moved_on c c.
Proof. unfold moved_on. auto with arith. Qed.

Lemma moved_on_trans c1 c2 c3 :
  moved_on c1 c2 -> moved_on c2 c3 -> moved_on c1 c3.
Proof.
  unfold moved_on. intros (?&?&?&?&?) (?&?&?&?&?).
  repeat split; try congruence. lia.
Qed.

Lemma moved_on_set_position c p :
  (ctx_position c <= p)%nat -> moved_on c (set_position c p).
Proof. unfold moved_on. cbn. auto. Qed.


Lemma read_uint8_moved_on c o c' :
  read_uint8 c = (o, c') ->
  moved_on c c'
  /\ (has_data c 1 = true -> is_throw o = false)
  /\ (forall b, o = Ok b -> ctx_position c' = S (ctx_position c)).
Proof.
  unfold read_uint8. destruct (has_data c 1); cbn [negb].
  - destruct (deref c (ctx_position c)); intros [= <- <-].
    + split; [apply moved_on_set_position; lia|].
      split; [reflexivity|]. intros _ _. cbn. lia.
    + split; [apply moved_on_refl|]. split; [reflexivity|]. discriminate.
  - intros [= <- <-]. split; [apply moved_on_refl|].
    split; discriminate.
Qed.

Lemma determine_length_moved_on item_def c o c' :
  determine_length item_def c = (o, c') -> moved_on c c'.
Proof.
  unfold determine_length.
  destruct (di_format item_def).
  - destruct (di_length item_def); intros [= <- <-]; apply moved_on_refl.
  - intros [= <- <-]. apply moved_on_refl.
  - destruct (has_data c 1); cbn [negb].
    + unfold bind. destruct (read_uint8 c) as [o1 c1] eqn:E.
      apply read_uint8_moved_on in E as [E _].
      destruct o1; intros [= <- <-]; exact E.
    + intros [= <- <-]. apply moved_on_refl.
  - destruct (has_data c 1); cbn [negb].
    + unfold bind. destruct (read_uint8 c) as [o1 c1] eqn:E.
      apply read_uint8_moved_on in E as [E _].
      destruct o1; [|intros [= <- <-]; exact E..].
      destruct (di_length item_def); intros [= <- <-]; exact E.
    + intros [= <- <-]. apply moved_on_refl.
Qed.

Lemma parse_data_item_moved_on item_def c o c' :
  parse_data_item item_def c = (o, c') ->
  moved_on c c' /\ is_throw o = false.
Proof.
  unfold parse_data_item.
  destruct (determine_length item_def c) as [o1 c1] eqn:E.
  pose proof (determine_length_moved_on _ _ _ _ E) as Hm.
  destruct o1 as [n| |].
  - destruct (parse_fields _ _ _ _) as [[| |] fields];
      intros [= <- <-]; (split; [|reflexivity]); try exact Hm.
    destruct Hm as (?&?&?&?&?). unfold moved_on. cbn.
    repeat split; try assumption. lia.
  - intros [= <- <-]. split; [exact Hm|reflexivity].
  - intros [= <- <-]. split; [exact Hm|reflexivity].
Qed.

Lemma decode_items_moved_on cat present_items :
  forall parsed c o parsed' c',
    decode_items cat present_items parsed c = (o, parsed', c') ->
    moved_on c c' /\ is_throw o = false.
Proof.
  induction present_items as [|item_id rest IH]; intros parsed c o parsed' c';
    cbn [decode_items].
  - intros [= <- <- <-]. split; [apply moved_on_refl|reflexivity].
  - destruct (String.eqb item_id "spare"); [apply IH|].
    destruct (data_items cat !! item_id) as [item_def|]; [|apply IH].
    destruct (parse_data_item item_def c) as [o1 c1] eqn:E.
    apply parse_data_item_moved_on in E as [Hm Hthrow].
    destruct o1; try discriminate Hthrow.
    + intros H. apply IH in H as [H1 H2].
      split; [eapply moved_on_trans; eassumption|exact H2].
    + intros [= <- <- <-]. split; [exact Hm|reflexivity].
Qed.

(** The FSPEC loop never moves the cursor back, and its first iteration,
    when there is a byte to read, moves it forward or faults. *)
Lemma parse_field_specification_loop_moved_on more :
  forall fspec c o c',
    parse_field_specification_loop more fspec c = (o, c') ->
    moved_on c c'
    /\ (has_data c 1 = true -> (0 < more)%nat -> is_fault o = false ->
        (ctx_position c < ctx_position c')%nat).
Proof.
  induction more as [|more IH]; intros fspec c o c';
    cbn [parse_field_specification_loop].
  - intros [= <- <-]. split; [apply moved_on_refl|lia].
  - destruct (has_data c 1) eqn:Hhas; cbn [negb].
    + unfold bind. destruct (read_uint8 c) as [o1 c1] eqn:E.
      apply read_uint8_moved_on in E as (Hm & Hthrow & Hpos).
      specialize (Hthrow Hhas).
      destruct o1 as [b| |]; try discriminate Hthrow.
      * specialize (Hpos b eq_refl).
        destruct (Z.land b 1 =? 0).
        -- intros [= <- <-]. split; [exact Hm|]. intros _ _ _. lia.
        -- intros H. apply IH in H as [H _].
           split; [eapply moved_on_trans; eassumption|].
           intros _ _ _. destruct H as (_&_&_&_&H). lia.
      * intros [= <- <-]. split; [exact Hm|]. discriminate.
    + intros [= <- <-]. split; [apply moved_on_refl|discriminate].
Qed.

(** One turn of the message loop: no exception leaves
    [decode_message_internal], and with a byte to read it consumes at
    least the first FSPEC byte. *)
Lemma decode_message_internal_progress c o c' :
  decode_message_internal c = (o, c') ->
  moved_on c c'
  /\ is_throw o = false
  /\ (has_data c 1 = true -> is_fault o = false ->
      (ctx_position c < ctx_position c')%nat).
Proof.
  unfold decode_message_internal.
  destruct (ctx_category c) as [cat|].
  2:{ intros [= <- <-]. split; [apply moved_on_refl|].
      split; [reflexivity|discriminate]. }
  unfold parse_field_specification.
  destruct (parse_field_specification_loop 16 [] c) as [o1 c1] eqn:E.
  apply parse_field_specification_loop_moved_on in E as [Hm Hlt].
  destruct o1 as [fspec| |].
  - destruct (decode_items _ _ _ _) as [[o2 items] c2] eqn:E2.
    apply decode_items_moved_on in E2 as [Hm2 Hthrow].
    destruct o2; try discriminate Hthrow; intros [= <- <-].
    + split; [eapply moved_on_trans; eassumption|].
      split; [reflexivity|]. intros Hhas _.
      specialize (Hlt Hhas ltac:(lia) eq_refl).
      destruct Hm2 as (_&_&_&_&Hm2). lia.
    + split; [eapply moved_on_trans; eassumption|].
      split; [reflexivity|discriminate].
  - intros [= <- <-]. split; [exact Hm|]. split; [reflexivity|].
    intros Hhas _. apply Hlt; [exact Hhas|lia|reflexivity].
  - intros [= <- <-]. split; [exact Hm|]. split; [reflexivity|discriminate].
Qed.

Lemma read_uint16_moved_on c o c' :
  read_uint16 c = (o, c') -> moved_on c c'.
Proof.
  unfold read_uint16. destruct (has_data c 2); cbn [negb].
  - destruct (deref c (ctx_position c)), (deref c (ctx_position c + 1));
      intros [= <- <-]; try apply moved_on_refl.
    apply moved_on_set_position. lia.
  - intros [= <- <-]. apply moved_on_refl.
Qed.

(** ** Termination of the message loop *)

(** The loop needs at most [size - position] iterations, no exception
    leaves it, and it appends at most that many messages. *)
Lemma decode_messages_enough fuel :
  forall block_length messages c,
    (ctx_size c - ctx_position c <= fuel)%nat ->
    exists o messages' c',
      decode_messages fuel block_length messages c = Some (o, messages', c')
      /\ is_throw o = false
      /\ (length messages'
          <= length messages + (ctx_size c - ctx_position c))%nat.
Proof.
  induction fuel as [|fuel IH]; intros block_length messages c Hfuel.
  - cbn [decode_messages].
    destruct (Z.of_nat (ctx_position c) <? block_length); cbn [andb].
    + unfold has_data.
      destruct (Nat.leb_spec (ctx_position c + 1) (ctx_size c)); [lia|].
      exists (Ok tt), messages, c. repeat split; [lia].
    + exists (Ok tt), messages, c. repeat split; lia.
  - cbn [decode_messages].
    destruct ((Z.of_nat (ctx_position c) <? block_length) && has_data c 1)
      eqn:Hguard.
    2:{ exists (Ok tt), messages, c. repeat split; lia. }
    apply andb_true_iff in Hguard as [_ Hhas].
    destruct (decode_message_internal c) as [o1 c1] eqn:E.
    apply decode_message_internal_progress in E as (Hm & Hthrow & Hlt).
    specialize (Hlt Hhas).
    destruct Hm as (_ & _ & Hsize & _ & _).
    unfold has_data in Hhas. apply Nat.leb_le in Hhas.
    destruct o1 as [message| |]; try discriminate Hthrow.
    + specialize (Hlt eq_refl).
      destruct (IH block_length (messages ++ [message])%list c1)
        as (o & messages' & c' & Heq & Hno & Hlen); [lia|].
      exists o, messages', c'. split; [exact Heq|]. split; [exact Hno|].
      rewrite length_app in Hlen. cbn [length] in Hlen. lia.
    + exists (Fault f), messages, c1. repeat split; lia.
Qed.

(** Fuel beyond what the loop uses does not change its result. *)
Lemma decode_messages_fuel_mono fuel :
  forall fuel' block_length messages c r,
    decode_messages fuel block_length messages c = Some r ->
    (fuel <= fuel')%nat ->
    decode_messages fuel' block_length messages c = Some r.
Proof.
  induction fuel as [|fuel IH]; intros fuel' block_length messages c r.
  - destruct fuel'; cbn [decode_messages];
      destruct ((Z.of_nat (ctx_position c) <? block_length) && has_data c 1);
      intros H _; try exact H; discriminate H.
  - destruct fuel' as [|fuel']; [lia|]. cbn [decode_messages].
    destruct ((Z.of_nat (ctx_position c) <? block_length) && has_data c 1);
      [|auto].
    destruct (decode_message_internal c) as [[message| |] c1]; [|auto..].
    intros H Hle. apply IH; [exact H|lia].
Qed.

Lemma decode_block_fuel_enough self data fuel :
  (length data <= fuel)%nat ->
  exists o,
    decode_block_fuel fuel self data = Some o
    /\ decode_block self data = Some o
    /\ is_throw o = false
    /\ forall blk, o = Ok blk -> (length (blk_messages blk) <= length data)%nat.
Proof.
  intros Hfuel. unfold decode_block, decode_block_fuel.
  destruct (length data <? 3)%nat.
  { eexists. repeat split. intros blk [= <-]. cbn. lia. }
  destruct (read_uint8 (new_context data 0 (length data) None))
    as [o1 c1] eqn:E1.
  apply read_uint8_moved_on in E1 as (Hm1 & _ & _).
  destruct o1 as [category| |].
  2,3: eexists; repeat split; intros blk [= <-]; cbn; lia.
  destruct (read_uint16 c1) as [o2 c2] eqn:E2.
  apply read_uint16_moved_on in E2.
  destruct o2 as [block_length| |].
  2,3: eexists; repeat split; intros blk [= <-]; cbn; lia.
  destruct (categories_ self !! category) as [cat|].
  2: eexists; repeat split; intros blk [= <-]; cbn; lia.
  assert (Hsize : ctx_size (set_category c2 (Some cat)) = length data).
  { destruct Hm1 as (_&_&H1&_&_), E2 as (_&_&H2&_&_). cbn in *. congruence. }
  destruct (decode_messages_enough (length data) block_length []
              (set_category c2 (Some cat)))
    as (o & messages & c' & Heq & Hno & Hlen); [lia|].
  rewrite (decode_messages_fuel_mono _ fuel _ _ _ _ Heq Hfuel), Heq.
  cbn [length] in Hlen.
  destruct o; try discriminate Hno;
    eexists; repeat split; try discriminate; intros blk [= <-]; cbn; lia.
Qed.

(** C10: [decode_block] ends on every input and for every registry within
    [data.size()] turns of its message loop and lets no exception out, but
    what it ends with need not be a block: on [02 00 05 80 01] the Fixed
    item I002/010 is read past the end of the vector. *)
Theorem C10_decode_block_ends_with_block_or_fault :
  (forall self data,
      exists o,
        decode_block self data = Some o
        /\ is_throw o = false
        /\ (forall fuel, (length data <= fuel)%nat ->
                         decode_block_fuel fuel self data = Some o)
        /\ (forall blk, o = Ok blk ->
                        (length (blk_messages blk) <= length data)%nat))
  /\ decode_block (decoder_with cat002 false) short_fixed_block
     = Some (Fault OutOfRangeRead).
Proof.
  split; [|vm_compute; reflexivity].
  intros self data.
  destruct (decode_block_fuel_enough self data (length data) (le_n _))
    as (o & _ & Ho & Hno & Hlen).
  exists o. repeat split; try assumption.
  intros fuel Hfuel.
  destruct (decode_block_fuel_enough self data fuel Hfuel)
    as (o' & Ho' & Ho'' & _).
  congruence.
Qed.

(** ** The scan of a Variable item *)

(** The scan of a Variable item stops on the first byte whose FX bit is
    clear; [k] bytes have been passed already. *)
Lemma scan_variable_finds (c : ParseContext) (b : Z) (pre : list Z) :
  forall k budget,
    (ctx_position c + k + length pre + 1 <= ctx_size c)%nat ->
    (length pre < budget)%nat ->
    (forall i x, (pre ++ [b])%list !! i = Some x ->
                 deref c (ctx_position c + k + i) = Some x) ->
    forallb fx_set pre = true -> fx_set b = false ->
    scan_variable budget c (ctx_position c) (k + 1)
    = Ok (k + length pre + 1)%nat.
Proof.
  induction pre as [|a pre IH]; intros k budget Hsize Hbudget Hbytes Hpre Hb;
    (destruct budget as [|budget]; [cbn in Hbudget; lia|]);
    cbn [scan_variable]; unfold has_data;
    cbn [length] in Hsize;
    (destruct (Nat.leb_spec (ctx_position c + (k + 1)) (ctx_size c)); [|lia]);
    cbn [negb];
    replace (ctx_position c + (k + 1) - 1)%nat
      with (ctx_position c + k + 0)%nat by lia.
  - rewrite (Hbytes 0%nat b eq_refl).
    unfold fx_set in Hb. apply negb_false_iff in Hb. rewrite Hb.
    f_equal. cbn [length]. lia.
  - rewrite (Hbytes 0%nat a eq_refl).
    cbn [forallb] in Hpre. apply andb_true_iff in Hpre as [Ha Hpre].
    unfold fx_set in Ha. apply negb_true_iff in Ha. rewrite Ha.
    rewrite (IH (k + 1)%nat budget).
    + f_equal. cbn [length]. lia.
    + lia.
    + cbn [length] in Hbudget. lia.
    + intros i x Hi.
      replace (ctx_position c + (k + 1) + i)%nat
        with (ctx_position c + k + S i)%nat by lia.
      apply Hbytes. exact Hi.
    + exact Hpre.
    + exact Hb.
Qed.

(** When every byte up to the end of the context has its FX bit set, the
    scan runs into the end. *)
Lemma scan_variable_exhausts (c : ParseContext) (bs : list Z) :
  forall k budget,
    (ctx_position c + k + length bs = ctx_size c)%nat ->
    (forall i x, bs !! i = Some x ->
                 deref c (ctx_position c + k + i) = Some x) ->
    forallb fx_set bs = true ->
    scan_variable budget c (ctx_position c) (k + 1)
    = Throw "Insufficient data for variable length field".
Proof.
  induction bs as [|a bs IH]; intros k budget Hsize Hbytes Hall;
    (destruct budget as [|budget]; [reflexivity|]);
    cbn [scan_variable]; unfold has_data; cbn [length] in Hsize.
  - destruct (Nat.leb_spec (ctx_position c + (k + 1)) (ctx_size c)); [lia|].
    reflexivity.
  - destruct (Nat.leb_spec (ctx_position c + (k + 1)) (ctx_size c)); [|lia].
    cbn [negb].
    replace (ctx_position c + (k + 1) - 1)%nat
      with (ctx_position c + k + 0)%nat by lia.
    rewrite (Hbytes 0%nat a eq_refl).
    cbn [forallb] in Hall. apply andb_true_iff in Hall as [Ha Hall].
    unfold fx_set in Ha. apply negb_true_iff in Ha. rewrite Ha.
    apply IH; [lia| |exact Hall].
    intros i x Hi.
    replace (ctx_position c + (k + 1) + i)%nat
      with (ctx_position c + k + S i)%nat by lia.
    apply Hbytes. exact Hi.
Qed.

(** ** Fields that fail inside an item *)

Lemma inside_buffer_moved_on c c' :
  moved_on c c' -> inside_buffer c -> inside_buffer c'.
Proof.
  unfold inside_buffer. intros (Hb & Hbase & Hs & _ & _). congruence.
Qed.

Lemma copy_range_inside c count :
  forall from,
    (ctx_base c + from + count <= length (ctx_buffer c))%nat ->
    exists bs, copy_range c from count = Some bs /\ length bs = count.
Proof.
  induction count as [|count IH]; intros from Hin; cbn [copy_range].
  - exists []. split; reflexivity.
  - unfold deref at 1.
    destruct (lookup_lt_is_Some_2 (ctx_buffer c) (ctx_base c + from))
      as [b Hb]; [lia|].
    rewrite Hb. destruct (IH (S from)) as (bs & -> & Hlen); [lia|].
    exists (b :: bs). split; [reflexivity|]. cbn. lia.
Qed.

Lemma read_bytes_inside count c :
  inside_buffer c ->
  exists o c',
    read_bytes count c = (o, c') /\ moved_on c c'
    /\ ((exists bs, o = Ok bs /\ length bs = count)
        \/ o = Throw "Insufficient data").
Proof.
  intros Hin. unfold read_bytes, has_data.
  destruct (Nat.leb_spec (ctx_position c + count) (ctx_size c)) as [Hle|Hgt];
    cbn [negb].
  - destruct (copy_range_inside c count (ctx_position c)) as (bs & -> & Hlen).
    { unfold inside_buffer in Hin. lia. }
    exists (Ok bs), (set_position c (ctx_position c + count)).
    split; [reflexivity|]. split; [apply moved_on_set_position; lia|].
    left. eauto.
  - exists (Throw "Insufficient data"), c.
    split; [reflexivity|]. split; [apply moved_on_refl|]. now right.
Qed.

(** From bit 0, [extract_bits] finds every byte it needs in a vector of
    [(num_bits + 7) / 8] bytes. *)
Lemma extract_bits_loop_in_range data num_bits todo :
  forall result,
    (todo <= num_bits)%nat -> (num_bits <= 8 * length data)%nat ->
    exists v, extract_bits_loop data 0 0 num_bits todo result = Ok v.
Proof.
  induction todo as [|todo IH]; intros result Htodo Hlen;
    cbn [extract_bits_loop].
  - eauto.
  - destruct (lookup_lt_is_Some_2 data (0 + (0 + (num_bits - S todo)) / 8))
      as [b Hb].
    { cbn [Nat.add]. apply Nat.Div0.div_lt_upper_bound. lia. }
    rewrite Hb. apply IH; lia.
Qed.

Lemma extract_bits_from_start data num_bits :
  (num_bits <= 8 * length data)%nat ->
  (exists v, extract_bits data 0 num_bits = Ok v)
  \/ extract_bits data 0 num_bits = Throw "Cannot extract more than 32 bits".
Proof.
  intros Hlen. unfold extract_bits.
  destruct (32 <? num_bits)%nat; [now right|left].
  change (0 / 8)%nat with 0%nat. change (0 mod 8)%nat with 0%nat.
  apply extract_bits_loop_in_range; [lia|exact Hlen].
Qed.

Lemma parse_field_inside field_def c :
  inside_buffer c ->
  exists pf c',
    parse_field field_def c = (Ok pf, c') /\ moved_on c c'
    /\ pf_name pf = f_name field_def /\ failure_recorded pf.
Proof.
  intros Hin. unfold parse_field, read_field_bytes.
  destruct (read_bytes_inside ((f_bits field_def + 7) / 8) c Hin)
    as (o & c' & -> & Hm & [(bs & -> & Hlen)| ->]).
  - destruct (extract_bits_from_start bs (f_bits field_def)) as [[v ->]| ->].
    { rewrite Hlen.
      pose proof (Nat.div_mod_eq (f_bits field_def + 7) 8) as Hdm.
      pose proof (Nat.mod_upper_bound (f_bits field_def + 7) 8). lia. }
    + eexists _, c'. split; [reflexivity|]. split; [exact Hm|].
      split; [reflexivity|]. intros [=].
    + eexists _, c'. split; [reflexivity|]. split; [exact Hm|].
      split; [reflexivity|]. intros _. cbn. auto.
  - eexists _, c'. split; [reflexivity|]. split; [exact Hm|].
    split; [reflexivity|]. intros _. cbn. auto.
Qed.

Lemma parse_extension_fields_loop_inside extension_fields :
  forall result c,
    inside_buffer c ->
    exists out c',
      parse_extension_fields_loop extension_fields result c
      = (Ok (result ++ out)%list, c')
      /\ moved_on c c' /\ Forall failure_recorded out.
Proof.
  induction extension_fields as [|field_def rest IH]; intros result c Hin;
    cbn [parse_extension_fields_loop].
  - exists [], c. rewrite app_nil_r.
    split; [reflexivity|]. split; [apply moved_on_refl|constructor].
  - destruct (String.eqb (f_name field_def) "spare"); [apply IH, Hin|].
    unfold bind.
    destruct (parse_field_inside field_def c Hin) as (pf & c1 & -> & Hm & _ & Hpf).
    destruct (IH (result ++ [pf])%list c1) as (out & c' & -> & Hm' & Hout).
    { eapply inside_buffer_moved_on; eassumption. }
    exists (pf :: out), c'. rewrite <- app_assoc.
    split; [reflexivity|].
    split; [eapply moved_on_trans; eassumption|now constructor].
Qed.



(** ** The body of an item *)










(** ** The E1 scenario *)

Lemma decode_items_known cat item_id item_def rest parsed c :
  data_items cat !! item_id = Some item_def ->
  String.eqb item_id "spare" = false ->
  decode_items cat (item_id :: rest) parsed c
  = match parse_data_item item_def c with
    | (Ok parsed_item, c') => decode_items cat rest (parsed ++ [parsed_item]) c'
    | (Throw what, c') => (Throw what, parsed, c')
    | (Fault f, c') => (Fault f, parsed, c')
    end.
Proof. intros Hfind Hspare. cbn [decode_items]. now rewrite Hspare, Hfind. Qed.

Lemma decode_messages_turn fuel block_length messages c message c' :
  (Z.of_nat (ctx_position c) <? block_length) && has_data c 1 = true ->
  decode_message_internal c = (Ok message, c') ->
  decode_messages (S fuel) block_length messages c
  = decode_messages fuel block_length (messages ++ [message]) c'.
Proof. intros Hguard Hmsg. cbn [decode_messages]. now rewrite Hguard, Hmsg. Qed.

Lemma decode_messages_done fuel block_length messages c :
  (Z.of_nat (ctx_position c) <? block_length) && has_data c 1 = false ->
  decode_messages fuel block_length messages c = Some (Ok tt, messages, c).
Proof. intros Hguard. destruct fuel; cbn [decode_messages]; now rewrite Hguard. Qed.

(** Evaluate a subterm that does not look into the category. *)
Ltac run t := let r := eval vm_compute in t in change t with r; cbv beta iota.

Ltac run_fspec :=
  match goal with
  | |- context [parse_field_specification ?c] =>
      run (parse_field_specification c)
  end.

Ltac run_uap :=
  match goal with
  | |- context [parse_uap_items ?f ?u] => run (parse_uap_items f u)
  end.

Ltac run_item H :=
  rewrite (decode_items_known _ _ _ _ _ _ H eq_refl);
  match goal with
  | |- context [parse_data_item ?d ?c] => run (parse_data_item d c)
  end.

Section E1.
Variables (self : AsterixDecoder) (cat : AsterixCategory).
Hypothesis Hcat : categories_ self !! 2 = Some cat.
Hypothesis Huap : uap cat = cat002_uap.
Hypothesis H010 : data_items cat !! "I002/010" = Some I002_010.
Hypothesis H000 : data_items cat !! "I002/000" = Some I002_000.
Hypothesis H020 : data_items cat !! "I002/020" = Some I002_020.
Hypothesis H030 : data_items cat !! "I002/030" = Some I002_030.
Hypothesis H041 : data_items cat !! "I002/041" = Some I002_041.

Lemma e1_first_record :
  decode_message_internal (e1_context cat 3)
  = (Ok (valid_message cat e1_record1), e1_context cat 11).
Proof using Huap H010 H000 H020 H030.
  unfold decode_message_internal, e1_context. cbn [ctx_category].
  run_fspec. rewrite Huap. run_uap.
  run_item H010. run_item H000. run_item H020. run_item H030.
  reflexivity.
Qed.

Lemma e1_second_record :
  decode_message_internal (e1_context cat 11)
  = (Ok (valid_message cat e1_record2), e1_context cat 19).
Proof using Huap H000 H020 H030 H041.
  unfold decode_message_internal, e1_context. cbn [ctx_category].
  run_fspec. rewrite Huap. run_uap.
  run_item H000. run_item H020. run_item H030. run_item H041.
  reflexivity.
Qed.

Lemma e1_empty_record (p : nat) :
  p = 19%nat \/ p = 20%nat \/ p = 21%nat ->
  decode_message_internal (e1_context cat p)
  = (Ok (valid_message cat []), e1_context cat (S p)).
Proof using Huap.
  intros [->|[->| ->]];
    unfold decode_message_internal, e1_context; cbn [ctx_category];
    run_fspec; rewrite Huap; run_uap; reflexivity.
Qed.

(** C1: with a category registered under 2 that has the CAT002 profile
    and the CAT002 definitions of I002/010, /000, /020, /030 and /041,
    [decode_block] returns five records on the E1 block: SAC = 0x00,
    SIC = 0x10, MESSAGE_TYPE = 0x01, SECTOR = 0x00, ToD = 0x123456 in the
    first; MESSAGE_TYPE = 0x9A, SECTOR = 0xBC, ToD = 0, ARP = 0 in the
    second; and three records without items, each of which consumes one
    FSPEC byte. *)
Theorem C1_cat002_block_of_five_records :
  (exists blk,
      decode_block self e1_block = Some (Ok blk)
      /\ blk_category blk = Some 2 /\ blk_length blk = Some 22
      /\ length (blk_messages blk) = 5%nat
      /\ map msg_data_items (blk_messages blk)
         = [e1_record1; e1_record2; []; []; []]
      /\ Forall (fun m => msg_valid m = true) (blk_messages blk))
  /\ (forall p, p = 19%nat \/ p = 20%nat \/ p = 21%nat ->
        decode_message_internal (e1_context cat p)
        = (Ok (valid_message cat []), e1_context cat (S p))).
Proof using All.
  split; [|exact e1_empty_record].
  exists (mkBlock (Some 2) (Some 22) None
            [valid_message cat e1_record1; valid_message cat e1_record2;
             valid_message cat []; valid_message cat [];
             valid_message cat []]).
  split.
  - unfold decode_block, decode_block_fuel.
    change (length e1_block) with 22%nat.
    change (22 <? 3)%nat with false. cbv iota.
    run (read_uint8 (new_context e1_block 0 22 None)).
    match goal with
    | |- context [read_uint16 ?c] => run (read_uint16 c)
    end.
    rewrite Hcat.
    change (set_category _ (Some cat)) with (e1_context cat 3).
    rewrite (decode_messages_turn _ 22 _ (e1_context cat 3) _ _ eq_refl
               e1_first_record).
    rewrite (decode_messages_turn _ 22 _ (e1_context cat 11) _ _ eq_refl
               e1_second_record).
    rewrite (decode_messages_turn _ 22 _ (e1_context cat 19) _ _ eq_refl
               (e1_empty_record 19 ltac:(auto))).
    rewrite (decode_messages_turn _ 22 _ (e1_context cat 20) _ _ eq_refl
               (e1_empty_record 20 ltac:(auto))).
    rewrite (decode_messages_turn _ 22 _ (e1_context cat 21) _ _ eq_refl
               (e1_empty_record 21 ltac:(auto))).
    rewrite decode_messages_done by reflexivity.
    reflexivity.
  - cbn. repeat split; try reflexivity. repeat constructor.
Qed.
End E1.

Lemma C1_cat002_block_of_five_records_witness :
  categories_ (decoder_with cat002 false) !! 2 = Some cat002
  /\ uap cat002 = cat002_uap
  /\ exists blk,
       decode_block (decoder_with cat002 false) e1_block = Some (Ok blk)
       /\ map msg_data_items (blk_messages blk)
          = [e1_record1; e1_record2; []; []; []].
Proof.
  split; [vm_compute; reflexivity|]. split; [reflexivity|].
  destruct (C1_cat002_block_of_five_records (decoder_with cat002 false) cat002)
    as [(blk & Hblk & _ & _ & _ & Hitems & _) _];
    try (vm_compute; reflexivity).
  exists blk. split; assumption.
Defined.

(** * Further properties of the code *)

(** ** What the loader can name *)


(** ** Validation *)

Lemma validate_mandatory_fields_loop_verdict strict message rules :
  validate_mandatory_fields_loop strict message rules
  = negb strict || mandatory_present message rules.
Proof.
  induction rules as [|rule rest IH]; cbn [validate_mandatory_fields_loop
    mandatory_present forallb].
  - now rewrite orb_true_r.
  - fold (mandatory_present message rest). rewrite IH.
    destruct (String.eqb (vr_type rule) "mandatory"),
      (item_present message (vr_field rule)), strict; reflexivity.
Qed.

(** X2: the verdict of [validate_message] is [false] for a category that
    is not registered; otherwise it is [message.valid], and in strict mode
    also the presence of every item that a "mandatory" rule names. Rules
    of any other type and, in lenient mode, all rules have no effect. *)
Theorem validate_message_verdict (self : AsterixDecoder)
    (message : AsterixMessage) :
  validate_message self message
  = match categories_ self !! msg_category message with
    | None => false
    | Some category =>
        (negb (strict_validation_ self)
         || mandatory_present message (validation_rules category))
        && msg_valid message
    end.
Proof.
  unfold validate_message.
  destruct (categories_ self !! msg_category message) as [category|];
    [|reflexivity].
  rewrite validate_conditional_fields_true.
  unfold validate_mandatory_fields.
  rewrite validate_mandatory_fields_loop_verdict.
  now destruct (negb (strict_validation_ self) || _).
Qed.

(** ** [decode_message] on what it cannot decode *)

(** X3: [decode_message] answers a category that is not registered with an
    invalid message that names it, whatever the data, and answers empty
    data with an invalid message whose error is the FSPEC underrun. *)
Theorem decode_message_unsupported_or_empty (self : AsterixDecoder) :
  (forall category data,
      categories_ self !! category = None ->
      decode_message self category data
      = Ok (mkMessage category None [] false
              ("Unsupported category: " +:+ to_string category)))
  /\ (forall category cat,
        categories_ self !! category = Some cat ->
        decode_message self category []
        = Ok (mkMessage (h_category (header cat)) None [] false
                "Insufficient data for FSPEC")).
Proof.
  split.
  - intros category data Hnone. unfold decode_message. now rewrite Hnone.
  - intros category cat Hsome. unfold decode_message. now rewrite Hsome.
Qed.

Lemma decode_message_unsupported_or_empty_witness :
  categories_ (decoder_with cat002 false) !! 48 = None
  /\ decode_message (decoder_with cat002 false) 48 [0x80; 0x01; 0x02]
     = Ok (mkMessage 48 None [] false "Unsupported category: 48")
  /\ categories_ (decoder_with cat002 false) !! 2 = Some cat002
  /\ decode_message (decoder_with cat002 false) 2 []
     = Ok (mkMessage 2 None [] false "Insufficient data for FSPEC").
Proof.
  destruct (decode_message_unsupported_or_empty (decoder_with cat002 false))
    as [Hnone Hempty].
  split; [vm_compute; reflexivity|]. split.
  - apply (Hnone 48 [0x80; 0x01; 0x02]). vm_compute. reflexivity.
  - split; [vm_compute; reflexivity|].
    apply (Hempty 2 cat002). vm_compute. reflexivity.
Defined.

(** ** Mode A codes and checksums *)

(** X4: [is_valid_mode_a_code] accepts every code: each digit it tests
    has been masked with 7 and cannot exceed 7. *)
Theorem is_valid_mode_a_code_accepts_everything (code : Z) :
  utils.is_valid_mode_a_code code = true.
Proof.
  unfold utils.is_valid_mode_a_code. apply forallb_forall. intros i _.
  apply negb_true_iff, Z.ltb_ge.
  change 7 with (Z.ones 3) at 1. rewrite Z.land_ones by lia.
  pose proof (Z.mod_pos_bound (Z.shiftr code (3 * i)) (2 ^ 3)). lia.
Qed.

Lemma fold_left_lxor (l : list Z) (a : Z) :
  fold_left Z.lxor l a = Z.lxor a (fold_left Z.lxor l 0).
Proof.
  revert a. induction l as [|x l IH]; intros a; cbn [fold_left].
  - now rewrite Z.lxor_0_r.
  - rewrite (IH (Z.lxor a x)), (IH (Z.lxor 0 x)).
    now rewrite Z.lxor_0_l, Z.lxor_assoc.
Qed.

Lemma validate_checksum_snoc (data : list Z) (c : Z) :
  utils.validate_checksum (data ++ [c])
  = Ok (fold_left Z.lxor data 0 =? c).
Proof.
  unfold utils.validate_checksum.
  rewrite removelast_last, last_last.
  now destruct data.
Qed.

(** X5: a frame that closes with the XOR of the bytes before it passes
    [validate_checksum], and a frame that passes stops passing as soon as
    any one of its bytes, the checksum included, is replaced by another
    value. *)
Theorem validate_checksum_detects_one_changed_byte :
  (forall data,
      utils.validate_checksum (data ++ [fold_left Z.lxor data 0]) = Ok true)
  /\ (forall frame i old new,
        utils.validate_checksum frame = Ok true ->
        frame !! i = Some old -> new <> old ->
        utils.validate_checksum (<[i := new]> frame) = Ok false).
Proof.
  split.
  - intros data. rewrite validate_checksum_snoc. now rewrite Z.eqb_refl.
  - intros frame i old new Hvalid Hold Hnew.
    destruct frame as [|x frame] using rev_ind; [discriminate Hvalid|].
    clear IHframe. rewrite validate_checksum_snoc in Hvalid.
    injection Hvalid as Hvalid. apply Z.eqb_eq in Hvalid.
    assert (Hi : (i < length (frame ++ [x]))%nat)
      by (eapply lookup_lt_Some; eassumption).
    rewrite length_app in Hi. cbn [length] in Hi.
    destruct (Nat.eq_dec i (length frame)) as [->|Hne].
    + rewrite lookup_app_r, Nat.sub_diag in Hold by lia.
      injection Hold as <-.
      rewrite insert_app_r_alt, Nat.sub_diag by lia. cbn [insert list_insert].
      rewrite validate_checksum_snoc. f_equal. apply Z.eqb_neq. congruence.
    + rewrite lookup_app_l in Hold by lia.
      rewrite insert_app_l by lia. rewrite validate_checksum_snoc.
      f_equal. apply Z.eqb_neq. intros Heq.
      apply Hnew.
      rewrite <- (take_drop_middle frame i old Hold) in Hvalid.
      rewrite insert_take_drop in Heq by lia.
      rewrite fold_left_app in Hvalid, Heq. cbn [fold_left] in Hvalid, Heq.
      rewrite fold_left_lxor in Hvalid, Heq.
      rewrite <- Hvalid in Heq. clear Hvalid.
      set (a := fold_left Z.lxor (take i frame) 0) in *.
      set (b := fold_left Z.lxor (drop (S i) frame) 0) in *.
      assert (H : Z.lxor (Z.lxor (Z.lxor a new) b) (Z.lxor (Z.lxor a old) b)
                  = 0) by (rewrite Heq; apply Z.lxor_nilpotent).
      replace (Z.lxor (Z.lxor (Z.lxor a new) b) (Z.lxor (Z.lxor a old) b))
        with (Z.lxor new old) in H.
      * now apply Z.lxor_eq in H.
      * apply Z.bits_inj'. intros n _. rewrite !Z.lxor_spec.
        destruct (Z.testbit a n), (Z.testbit b n), (Z.testbit new n),
          (Z.testbit old n); reflexivity.
Qed.

Lemma validate_checksum_detects_one_changed_byte_witness :
  utils.validate_checksum [0x12; 0x34; 0x26] = Ok true
  /\ utils.validate_checksum (<[1%nat := 0x35]> [0x12; 0x34; 0x26]) = Ok false.
Proof.
  destruct validate_checksum_detects_one_changed_byte as [_ H].
  split; [reflexivity|].
  apply (H [0x12; 0x34; 0x26] 1%nat 0x34 0x35); [reflexivity|reflexivity|lia].
Defined.

(** ** Hexadecimal strings *)

Lemma remove_spaces_cons (a : ascii) (s : string) :
  remove_spaces (String a s)
  = if isspace a then remove_spaces s else String a (remove_spaces s).
Proof. unfold remove_spaces. cbn. now destruct (isspace a). Qed.

(** The two digits that [to_hex_string] writes for a byte, checked on the
    256 bytes. *)
Lemma hex_digits_of_byte (b : Z) :
  is_byte b ->
  let h := utils.hex_digit (b / 16) in
  let l := utils.hex_digit (b mod 16) in
  isspace h = false /\ isspace l = false
  /\ utils.stoul16 (String h (String l "")) = Ok b
  /\ String.eqb (String h (String l "")) "0x" = false
  /\ String.eqb (String h (String l "")) "0X" = false.
Proof.
  intros [H0 H1].
  assert (Hall :
    forallb
      (fun n =>
         let b := Z.of_nat n in
         let h := utils.hex_digit (b / 16) in
         let l := utils.hex_digit (b mod 16) in
         negb (isspace h) && negb (isspace l)
         && match utils.stoul16 (String h (String l "")) with
            | Ok v => v =? b
            | _ => false
            end
         && negb (String.eqb (String h (String l "")) "0x")
         && negb (String.eqb (String h (String l "")) "0X"))
      (seq 0 256) = true) by (vm_compute; reflexivity).
  rewrite forallb_forall in Hall.
  specialize (Hall (Z.to_nat b) ltac:(apply in_seq; lia)).
  rewrite Z2Nat.id in Hall by lia. cbv zeta in Hall |- *.
  apply andb_true_iff in Hall as [Hall HX]. apply negb_true_iff in HX.
  apply andb_true_iff in Hall as [Hall Hx]. apply negb_true_iff in Hx.
  apply andb_true_iff in Hall as [Hall Hv].
  apply andb_true_iff in Hall as [Hh Hl].
  apply negb_true_iff in Hh, Hl.
  repeat split; try assumption.
  destruct (utils.stoul16 _) as [v| |]; try discriminate Hv.
  apply Z.eqb_eq in Hv. now subst v.
Qed.

Lemma to_hex_string_clean (data : list Z) :
  Forall is_byte data ->
  remove_spaces (utils.to_hex_string data) = utils.to_hex_string data.
Proof.
  induction 1 as [|b data Hb _ IH]; [reflexivity|].
  destruct (hex_digits_of_byte b Hb) as (Hh & Hl & _).
  cbn [utils.to_hex_string fold_right].
  rewrite !remove_spaces_cons, Hh, Hl. do 2 f_equal. exact IH.
Qed.

Lemma to_hex_string_length (data : list Z) :
  String.length (utils.to_hex_string data) = (2 * length data)%nat.
Proof.
  induction data as [|b data IH]; [reflexivity|].
  cbn [utils.to_hex_string fold_right String.length length].
  fold (utils.to_hex_string data). rewrite IH. lia.
Qed.

Lemma from_hex_pairs_to_hex_string (data : list Z) :
  Forall is_byte data ->
  utils.from_hex_pairs (utils.to_hex_string data) = Ok data.
Proof.
  induction 1 as [|b data Hb _ IH]; [reflexivity|].
  destruct (hex_digits_of_byte b Hb) as (_ & _ & Hv & _).
  cbn [utils.to_hex_string fold_right utils.from_hex_pairs].
  fold (utils.to_hex_string data). rewrite Hv, IH.
  unfold cast_unsigned. rewrite Z.mod_small; [reflexivity|].
  destruct Hb. change (2 ^ 8) with 256. lia.
Qed.

Lemma substring_nothing (s : string) : String.substring 0 0 s = "".
Proof. now destruct s. Qed.

Lemma substring_all (s : string) : String.substring 0 (String.length s) s = s.
Proof. induction s as [|a s IH]; cbn; [reflexivity|now rewrite IH]. Qed.

Lemma even_length_kept (data : list Z) :
  (String.length (utils.to_hex_string data) mod 2 =? 0)%nat = true.
Proof.
  rewrite to_hex_string_length, Nat.mul_comm, Nat.Div0.mod_mul. reflexivity.
Qed.

(** X6: [from_hex_string] gives back the bytes that [to_hex_string] wrote,
    also when the text is given the prefix "0x". *)
Theorem hex_string_round_trip (data : list Z) :
  Forall is_byte data ->
  utils.from_hex_string (utils.to_hex_string data) = Ok data
  /\ utils.from_hex_string ("0x" +:+ utils.to_hex_string data) = Ok data.
Proof.
  intros Hdata. split; unfold utils.from_hex_string.
  - rewrite to_hex_string_clean by exact Hdata.
    assert (Hprefix :
      String.eqb (String.substring 0 2 (utils.to_hex_string data)) "0x"
      || String.eqb (String.substring 0 2 (utils.to_hex_string data)) "0X"
      = false).
    { destruct Hdata as [|b data Hb _]; [reflexivity|].
      destruct (hex_digits_of_byte b Hb) as (_ & _ & _ & Hx & HX).
      cbn [utils.to_hex_string fold_right String.substring].
      now rewrite substring_nothing, Hx, HX. }
    rewrite Hprefix, even_length_kept.
    now apply from_hex_pairs_to_hex_string.
  - change ("0x" +:+ utils.to_hex_string data)
      with (String "0" (String "x" (utils.to_hex_string data))).
    rewrite !remove_spaces_cons.
    change (isspace "0") with false. change (isspace "x") with false.
    cbv iota. rewrite to_hex_string_clean by exact Hdata.
    cbn [String.substring String.eqb Ascii.eqb Bool.eqb orb String.length
         Nat.sub].
    replace (String.length (utils.to_hex_string data) - 0)%nat
      with (String.length (utils.to_hex_string data)) by lia.
    rewrite substring_nothing, substring_all.
    change (String.eqb "" "" || false) with true.
    cbv iota. rewrite even_length_kept.
    now apply from_hex_pairs_to_hex_string.
Qed.

Lemma hex_string_round_trip_witness :
  Forall is_byte [0x02; 0x00; 0x16; 0xF0]
  /\ utils.to_hex_string [0x02; 0x00; 0x16; 0xF0] = "020016f0"
  /\ utils.from_hex_string "020016f0" = Ok [0x02; 0x00; 0x16; 0xF0].
Proof.
  assert (H : Forall is_byte [0x02; 0x00; 0x16; 0xF0])
    by (repeat constructor; lia).
  split; [exact H|]. split; [reflexivity|].
  exact (proj1 (hex_string_round_trip [0x02; 0x00; 0x16; 0xF0] H)).
Defined.

(** ** Framing of a file into blocks *)

Lemma decode_block_of_nothing (self : AsterixDecoder) :
  decode_block self [] = Some (Ok (mkBlock None None (Some false) [])).
Proof. reflexivity. Qed.

(** X7: when the framing loop of [decode_file] stands on a header whose
    length field is zero, it decodes an empty block and stays where it is:
    no number of turns finishes the file. *)
Theorem decode_file_never_passes_a_zero_length (fuel : nat)
    (self : AsterixDecoder) (data : list Z) (offset : nat)
    (blocks : list AsterixBlock) :
  (offset + 3 <= length data)%nat ->
  data !! (offset + 1)%nat = Some 0 ->
  data !! (offset + 2)%nat = Some 0 ->
  decode_file_loop fuel self data offset blocks = None.
Proof.
  intros Hlen H1 H2. revert blocks.
  induction fuel as [|fuel IH]; intros blocks; cbn [decode_file_loop];
    rewrite H1, H2; cbn [default Z.shiftl Z.lor Z.to_nat];
    rewrite Nat.add_0_r;
    destruct (Nat.ltb_spec offset (length data)); try lia;
    destruct (Nat.ltb_spec (length data) (offset + 3)); try lia;
    destruct (Nat.ltb_spec (length data) offset); try lia.
  - reflexivity.
  - rewrite take_0, decode_block_of_nothing. apply IH.
Qed.

Lemma decode_file_never_passes_a_zero_length_witness :
  decode_file_fuel 1000 (decoder_with cat002 false)
    (Some [0x02; 0x00; 0x00; 0x80]) = None.
Proof.
  apply (decode_file_never_passes_a_zero_length 1000
           (decoder_with cat002 false) [0x02; 0x00; 0x00; 0x80] 0 []).
  - cbn. lia.
  - reflexivity.
  - reflexivity.
Defined.

(** The loop only looks at the file from its offset on. *)
Lemma decode_file_loop_shift (fuel : nat) (self : AsterixDecoder)
    (pre data : list Z) :
  forall offset blocks,
    decode_file_loop fuel self (pre ++ data) (length pre + offset) blocks
    = decode_file_loop fuel self data offset blocks.
Proof.
  induction fuel as [|fuel IH]; intros offset blocks; cbn [decode_file_loop];
    rewrite length_app;
    rewrite !(lookup_app_r pre data) by lia;
    replace (length pre + offset + 1 - length pre)%nat with (offset + 1)%nat
      by lia;
    replace (length pre + offset + 2 - length pre)%nat with (offset + 2)%nat
      by lia;
    set (block_length :=
           Z.to_nat (Z.lor (Z.shiftl (default 0 (data !! (offset + 1)%nat)) 8)
                           (default 0 (data !! (offset + 2)%nat))));
    destruct (Nat.ltb_spec (length pre + offset) (length pre + length data)),
      (Nat.ltb_spec offset (length data)); try lia; try reflexivity;
    destruct (Nat.ltb_spec (length pre + length data) (length pre + offset + 3)),
      (Nat.ltb_spec (length data) (offset + 3)); try lia; try reflexivity;
    destruct (Nat.ltb_spec (length pre + length data)
                (length pre + offset + block_length)),
      (Nat.ltb_spec (length data) (offset + block_length));
      try lia; try reflexivity.
  rewrite drop_app_ge by lia.
  replace (length pre + offset - length pre)%nat with offset by lia.
  destruct (decode_block self (take block_length (drop offset data)))
    as [[block| |]|]; try reflexivity.
  replace (length pre + offset + block_length)%nat
    with (length pre + (offset + block_length))%nat by lia.
  apply IH.
Qed.

Lemma decode_file_loop_first_block (fuel : nat) (self : AsterixDecoder)
    (block_data rest : list Z) (block : AsterixBlock)
    (blocks : list AsterixBlock) :
  well_framed block_data ->
  decode_block self block_data = Some (Ok block) ->
  decode_file_loop (S fuel) self (block_data ++ rest) 0 blocks
  = decode_file_loop fuel self rest 0 (blocks ++ [block]).
Proof.
  intros [Hlen Hdecl] Hblock. cbn [decode_file_loop].
  rewrite length_app.
  rewrite !(lookup_app_l block_data rest) by lia.
  cbn [Nat.add]. fold (declared_length block_data). rewrite Hdecl.
  destruct (Nat.ltb_spec 0 (length block_data + length rest)); [|lia].
  destruct (Nat.ltb_spec (length block_data + length rest) 3); [lia|].
  destruct (Nat.ltb_spec (length block_data + length rest) (length block_data));
    [lia|].
  rewrite drop_0, take_app_length, Hblock.
  rewrite <- (Nat.add_0_r (length block_data)).
  apply decode_file_loop_shift.
Qed.

(** X8: a file made of well-framed blocks, each of which [decode_block]
    decodes, followed by fewer than three stray bytes, decodes to the
    blocks' results in file order; one turn of the loop per block is
    enough. *)
Theorem decode_file_of_framed_blocks (self : AsterixDecoder)
    (framed : list (list Z * AsterixBlock)) (stray : list Z) (fuel : nat) :
  Forall (fun p => well_framed (fst p)
                   /\ decode_block self (fst p) = Some (Ok (snd p))) framed ->
  (length stray < 3)%nat ->
  (length framed <= fuel)%nat ->
  decode_file_fuel fuel self (Some (concat (map fst framed) ++ stray)%list)
  = Some (Ok (map snd framed)).
Proof.
  intros Hframed Hstray Hfuel. unfold decode_file_fuel.
  change (map snd framed) with ([] ++ map snd framed)%list.
  generalize (@nil AsterixBlock) as blocks.
  revert fuel Hfuel.
  induction Hframed as [|[block_data block] framed [Hwf Hblock] _ IH];
    intros fuel Hfuel blocks.
  - cbn [map concat app]. rewrite app_nil_r.
    destruct fuel; cbn [decode_file_loop];
      destruct (Nat.ltb_spec 0 (length stray)); try reflexivity;
      destruct (Nat.ltb_spec (length stray) (0 + 3)); try reflexivity;
      cbn in *; lia.
  - destruct fuel as [|fuel]; [cbn in Hfuel; lia|].
    cbn [map concat fst snd]. rewrite <- app_assoc.
    rewrite (decode_file_loop_first_block fuel self block_data _ block blocks
               Hwf Hblock).
    rewrite IH by (cbn in Hfuel; lia).
    now rewrite <- app_assoc.
Qed.

Lemma decode_file_of_framed_blocks_witness :
  well_framed [0x02; 0x00; 0x03]
  /\ well_framed [0x02; 0x00; 0x04; 0x00]
  /\ decode_file_fuel 2 (decoder_with cat002 false)
       (Some [0x02; 0x00; 0x03; 0x02; 0x00; 0x04; 0x00; 0xFF])
     = Some (Ok [mkBlock (Some 2) (Some 3) None [];
                 mkBlock (Some 2) (Some 4) None
                   [mkMessage 2 None [] true ""]]).
Proof.
  assert (H1 : well_framed [0x02; 0x00; 0x03]) by (split; [cbn; lia|reflexivity]).
  assert (H2 : well_framed [0x02; 0x00; 0x04; 0x00])
    by (split; [cbn; lia|reflexivity]).
  split; [exact H1|]. split; [exact H2|].
  apply (decode_file_of_framed_blocks (decoder_with cat002 false)
           [([0x02; 0x00; 0x03], mkBlock (Some 2) (Some 3) None []);
            ([0x02; 0x00; 0x04; 0x00],
             mkBlock (Some 2) (Some 4) None [mkMessage 2 None [] true ""])]
           [0xFF] 2).
  - repeat constructor; try (cbn; lia); vm_compute; reflexivity.
  - cbn. lia.
  - cbn. lia.
Defined.

(** ** Which items an FSPEC selects *)

Lemma select_nil_r {A} (bits : list bool) : select bits (@nil A) = [].
Proof. unfold select. now destruct bits. Qed.

Lemma select_cons {A} (b : bool) (bits : list bool) (x : A) (items : list A) :
  select (b :: bits) (x :: items)
  = ((if b then [x] else []) ++ select bits items)%list.
Proof. unfold select. cbn. now destruct b. Qed.

Lemma select_app {A} (bits1 bits2 : list bool) (items : list A) :
  select (bits1 ++ bits2) items
  = (select bits1 items ++ select bits2 (drop (length bits1) items))%list.
Proof.
  revert items. induction bits1 as [|b bits1 IH]; intros items.
  - reflexivity.
  - destruct items as [|x items].
    + now rewrite !select_nil_r, drop_nil, select_nil_r.
    + cbn [app length drop]. rewrite !select_cons, IH.
      now rewrite <- app_assoc.
Qed.

Lemma check_bits_select (fspec_byte : Z) (items : list string)
    (bits : list nat) :
  forall bit_index present_items,
    exists bit_index',
      check_bits bits fspec_byte items bit_index present_items
      = (bit_index',
         (present_items
          ++ select (map (bit_set fspec_byte) bits) (drop bit_index items))%list)
      /\ drop bit_index' items = drop (length bits) (drop bit_index items).
Proof.
  induction bits as [|bit bits IH]; intros bit_index present_items;
    cbn [check_bits].
  - exists bit_index. cbn [map]. unfold select at 1. cbn.
    now rewrite app_nil_r.
  - destruct (items !! bit_index) as [item|] eqn:Hitem.
    + destruct (IH (S bit_index)
                  (if negb (Z.land fspec_byte (Z.shiftl 1 (Z.of_nat bit)) =? 0)
                   then (present_items ++ [item])%list else present_items))
        as (bit_index' & -> & Hdrop).
      exists bit_index'. rewrite (drop_S _ _ _ Hitem).
      cbn [map length drop]. rewrite select_cons. unfold bit_set at 2.
      split; [|exact Hdrop].
      f_equal. destruct (negb _); [now rewrite <- app_assoc|reflexivity].
    + exists bit_index. apply lookup_ge_None in Hitem.
      rewrite (drop_ge items bit_index) by lia.
      now rewrite select_nil_r, app_nil_r, drop_nil.
Qed.

Lemma parse_uap_items_loop_select (items : list string) (fspec : list Z) :
  forall bit_index present_items,
    parse_uap_items_loop fspec items bit_index present_items
    = (present_items ++ select (fspec_bits fspec) (drop bit_index items))%list.
Proof.
  induction fspec as [|fspec_byte rest IH]; intros bit_index present_items.
  - cbn. unfold select. cbn. now rewrite app_nil_r.
  - cbn [parse_uap_items_loop fspec_bits].
    destruct rest as [|next rest].
    + destruct (check_bits_select fspec_byte items [7; 6; 5; 4; 3; 2; 1; 0]%nat
                  bit_index present_items) as (bit_index' & Heq & _).
      change (rev (seq (8 - 8) 8)) with [7; 6; 5; 4; 3; 2; 1; 0]%nat.
      rewrite Heq. reflexivity.
    + destruct (check_bits_select fspec_byte items [7; 6; 5; 4; 3; 2; 1]%nat
                  bit_index present_items) as (bit_index' & Heq & Hdrop).
      change (rev (seq (8 - 7) 7)) with [7; 6; 5; 4; 3; 2; 1]%nat.
      rewrite Heq, IH, Hdrop, select_app, length_map.
      now rewrite <- app_assoc.
Qed.

(** X9: [parse_uap_items] matches the FSPEC bits, seven per byte from bit
    7 down to bit 1 and all eight for the last byte, one to one against
    the UAP list, and returns in UAP order the items whose bit is set;
    bits that have no UAP item are ignored. The FX bit of the last byte is
    walked as a selector too. *)
Theorem parse_uap_items_selects_by_bit (fspec : list Z)
    (uap : UserApplicationProfile) :
  parse_uap_items fspec uap = select (fspec_bits fspec) (uap_items uap).
Proof.
  unfold parse_uap_items. now rewrite parse_uap_items_loop_select, drop_0.
Qed.

(** ** Bit extraction *)

From Stdlib Require Import ZifyNat.

(** Linear arithmetic with division and remainder by constants. *)
Ltac div_lia := zify; Z.to_euclidean_division_equations; lia.

Lemma bit_set_testbit (b : Z) (bit : nat) :
  bit_set b bit = Z.testbit b (Z.of_nat bit).
Proof.
  unfold bit_set. rewrite Z.shiftl_1_l, land_pow2_testbit by lia.
  destruct (Z.testbit b (Z.of_nat bit)); [|reflexivity].
  apply negb_true_iff, Z.eqb_neq.
  pose proof (Z.pow_pos_nonneg 2 (Z.of_nat bit)). lia.
Qed.

(** Setting bit [t] of an accumulator whose bits below [S t] are clear. *)
Lemma testbit_lor_pow2 (acc : Z) (t k : nat) :
  Z.testbit (Z.lor acc (Z.shiftl 1 (Z.of_nat t))) (Z.of_nat k)
  = Z.testbit acc (Z.of_nat k) || (t =? k)%nat.
Proof.
  rewrite Z.lor_spec, Z.shiftl_1_l, Z.pow2_bits_eqb by lia.
  f_equal. destruct (Nat.eqb_spec t k), (Z.eqb_spec (Z.of_nat t) (Z.of_nat k));
    try reflexivity; lia.
Qed.

Lemma extract_bits_loop_bits (data : list Z) (s n : nat) (todo : nat) :
  forall acc,
    (todo <= n)%nat -> (s + n <= 8 * length data)%nat ->
    (forall k : nat,
        Z.testbit acc (Z.of_nat k)
        = (todo <=? k)%nat && (k <? n)%nat && bit_at data (s + (n - 1 - k))) ->
    exists v,
      extract_bits_loop data (s / 8) (s mod 8) n todo acc = Ok v
      /\ forall k : nat,
           Z.testbit v (Z.of_nat k)
           = (k <? n)%nat && bit_at data (s + (n - 1 - k)).
Proof.
  induction todo as [|todo IH]; intros acc Htodo Hlen Hacc;
    cbn [extract_bits_loop].
  - exists acc. split; [reflexivity|]. intros k. now rewrite Hacc.
  - replace (s / 8 + (s mod 8 + (n - S todo)) / 8)%nat
      with ((s + (n - S todo)) / 8)%nat by div_lia.
    replace (7 - (s mod 8 + (n - S todo)) mod 8)%nat
      with (7 - (s + (n - S todo)) mod 8)%nat by div_lia.
    destruct (lookup_lt_is_Some_2 data ((s + (n - S todo)) / 8)) as [b Hb];
      [div_lia|].
    rewrite Hb. fold (bit_set b (7 - (s + (n - S todo)) mod 8)).
    rewrite bit_set_testbit.
    assert (Hbit : bit_at data (s + (n - S todo))
                   = Z.testbit b (Z.of_nat (7 - (s + (n - S todo)) mod 8)))
      by (unfold bit_at; now rewrite Hb).
    rewrite <- Hbit.
    replace (n - 1 - (n - S todo))%nat with todo by lia.
    apply IH; [lia|exact Hlen|]. intros k.
    destruct (bit_at data (s + (n - S todo))) eqn:Eb.
    + rewrite testbit_lor_pow2, Hacc.
      destruct (Nat.eqb_spec todo k) as [<-|Hne].
      * rewrite orb_true_r.
        replace (n - 1 - todo)%nat with (n - S todo)%nat by lia.
        rewrite Eb, Nat.leb_refl.
        destruct (Nat.ltb_spec todo n); [reflexivity|lia].
      * rewrite orb_false_r.
        destruct (Nat.leb_spec (S todo) k), (Nat.leb_spec todo k);
          try reflexivity; lia.
    + rewrite Hacc.
      destruct (Nat.eq_dec todo k) as [<-|Hne].
      * replace (n - 1 - todo)%nat with (n - S todo)%nat by lia.
        now rewrite Eb, !andb_false_r.
      * destruct (Nat.leb_spec (S todo) k), (Nat.leb_spec todo k);
          try reflexivity; lia.
Qed.

Lemma extract_bits_loop_past_end (data : list Z) (s n : nat) (todo : nat) :
  forall acc,
    (0 < todo <= n)%nat -> (8 * length data < s + n)%nat ->
    extract_bits_loop data (s / 8) (s mod 8) n todo acc
    = Throw "Bit extraction exceeds data size".
Proof.
  induction todo as [|todo IH]; intros acc Htodo Hlen; [lia|].
  cbn [extract_bits_loop].
  replace (s / 8 + (s mod 8 + (n - S todo)) / 8)%nat
    with ((s + (n - S todo)) / 8)%nat by div_lia.
  destruct (data !! ((s + (n - S todo)) / 8)%nat) as [b|] eqn:Hb;
    [|reflexivity].
  apply lookup_lt_Some in Hb.
  apply IH; [|exact Hlen]. split; [|lia].
  destruct todo; [|lia]. exfalso. div_lia.
Qed.

Lemma low_bits_bound (v : Z) (n : nat) :
  (forall k : nat, (n <= k)%nat -> Z.testbit v (Z.of_nat k) = false) ->
  0 <= v < 2 ^ Z.of_nat n.
Proof.
  intros Hhigh.
  assert (Hv : v = v mod 2 ^ Z.of_nat n).
  { rewrite <- Z.land_ones by lia. apply Z.bits_inj'. intros k Hk.
    rewrite Z.land_spec, Z.testbit_ones_nonneg by lia.
    destruct (Z.ltb_spec k (Z.of_nat n)); [now rewrite andb_true_r|].
    rewrite andb_false_r. rewrite <- (Z2Nat.id k) by lia.
    apply Hhigh. lia. }
  rewrite Hv. apply Z.mod_pos_bound. apply Z.pow_pos_nonneg; lia.
Qed.

Lemma extract_bits_cases (data : list Z) (start_bit num_bits : nat) :
  ((32 < num_bits)%nat ->
   extract_bits data start_bit num_bits
   = Throw "Cannot extract more than 32 bits")
  /\ ((0 < num_bits <= 32)%nat ->
      (8 * length data < start_bit + num_bits)%nat ->
      extract_bits data start_bit num_bits
      = Throw "Bit extraction exceeds data size")
  /\ ((num_bits <= 32)%nat ->
      (start_bit + num_bits <= 8 * length data)%nat ->
      exists v,
        extract_bits data start_bit num_bits = Ok v
        /\ 0 <= v < 2 ^ Z.of_nat num_bits
        /\ forall i, (i < num_bits)%nat ->
             Z.testbit v (Z.of_nat (num_bits - 1 - i))
             = bit_at data (start_bit + i))
  /\ extract_bits data start_bit 0 = Ok 0.
Proof.
  unfold extract_bits. split; [|split; [|split]].
  - intros Hbig. destruct (Nat.ltb_spec 32 num_bits); [reflexivity|lia].
  - intros Hsmall Hpast.
    destruct (Nat.ltb_spec 32 num_bits); [lia|].
    apply extract_bits_loop_past_end; lia.
  - intros Hsmall Hin.
    destruct (Nat.ltb_spec 32 num_bits); [lia|].
    destruct (extract_bits_loop_bits data start_bit num_bits num_bits 0)
      as (v & Hv & Hbits); [lia|exact Hin| |].
    { intros k. rewrite Z.bits_0.
      destruct (Nat.leb_spec num_bits k), (Nat.ltb_spec k num_bits);
        try reflexivity; lia. }
    exists v. split; [exact Hv|]. split.
    + apply low_bits_bound. intros k Hk. rewrite Hbits.
      destruct (Nat.ltb_spec k num_bits); [lia|reflexivity].
    + intros i Hi. rewrite Hbits.
      destruct (Nat.ltb_spec (num_bits - 1 - i) num_bits); [|lia].
      cbn [andb]. f_equal. lia.
  - reflexivity.
Qed.

(** X10: [extract_bits] has three outcomes. More than 32 bits are
    refused; a range of at least one bit that runs past the last byte is
    refused; otherwise the result is below [2^num_bits] and its bits are
    those of the vector from [start_bit] on, the first one read being the
    most significant. Zero bits give 0 wherever they start. *)
Theorem extract_bits_reads_msb_first (data : list Z) (start_bit num_bits : nat) :
  ((32 < num_bits)%nat ->
   extract_bits data start_bit num_bits
   = Throw "Cannot extract more than 32 bits")
  /\ ((0 < num_bits <= 32)%nat ->
      (8 * length data < start_bit + num_bits)%nat ->
      extract_bits data start_bit num_bits
      = Throw "Bit extraction exceeds data size")
  /\ ((num_bits <= 32)%nat ->
      (start_bit + num_bits <= 8 * length data)%nat ->
      exists v,
        extract_bits data start_bit num_bits = Ok v
        /\ 0 <= v < 2 ^ Z.of_nat num_bits
        /\ forall i, (i < num_bits)%nat ->
             Z.testbit v (Z.of_nat (num_bits - 1 - i))
             = bit_at data (start_bit + i))
  /\ extract_bits data start_bit 0 = Ok 0.
Proof. exact (extract_bits_cases data start_bit num_bits). Qed.

Lemma extract_bits_reads_msb_first_witness :
  extract_bits [0x03] 7 1 = Ok 1
  /\ extract_bits [0x03] 7 2 = Throw "Bit extraction exceeds data size"
  /\ extract_bits [0x03] 0 33 = Throw "Cannot extract more than 32 bits".
Proof.
  destruct (extract_bits_reads_msb_first [0x03] 7 2) as (_ & Hpast & _).
  destruct (extract_bits_reads_msb_first [0x03] 0 33) as (Hbig & _ & _).
  destruct (extract_bits_reads_msb_first [0x03] 7 1) as (_ & _ & Hok & _).
  split; [|split].
  - destruct Hok as (v & Hv & _ & _); [lia|cbn; lia|].
    rewrite Hv. vm_compute in Hv. symmetry. exact Hv.
  - apply Hpast; cbn; lia.
  - apply Hbig. lia.
Defined.

(** ** Writing bits and reading them back *)

Lemma bit_at_grown (data : list Z) (k p : nat) :
  bit_at (data ++ replicate k 0) p = bit_at data p.
Proof.
  unfold bit_at.
  destruct (Nat.lt_ge_cases (p / 8)%nat (length data)) as [Hlt|Hge].
  - now rewrite lookup_app_l.
  - rewrite lookup_app_r, (lookup_ge_None_2 data) by lia.
    destruct (replicate k 0 !! (p / 8 - length data)%nat) as [b|] eqn:Hb;
      [|reflexivity].
    apply lookup_replicate in Hb as [-> _]. apply Z.bits_0.
Qed.

Lemma bit_at_put_bit (data : list Z) (p q : nat) (bit : bool) :
  bit_at (utils.put_bit data p bit) q
  = if (p =? q)%nat then bit else bit_at data q.
Proof.
  unfold utils.put_bit.
  set (data1 := if (length data <=? p / 8)%nat
                then (data ++ replicate (p / 8 + 1 - length data) 0)%list
                else data).
  assert (Hbits : forall r, bit_at data1 r = bit_at data r).
  { intros r. subst data1. destruct (length data <=? p / 8)%nat;
      [apply bit_at_grown|reflexivity]. }
  assert (Hlen : (p / 8 < length data1)%nat).
  { subst data1. destruct (Nat.leb_spec (length data) (p / 8)%nat).
    - rewrite length_app, length_replicate. lia.
    - assumption. }
  rewrite <- Hbits. unfold bit_at at 1.
  destruct (Nat.eq_dec (q / 8)%nat (p / 8)%nat) as [Heq|Hne].
  - rewrite Heq, list_lookup_insert_eq by exact Hlen.
    unfold cast_unsigned. rewrite Z.mod_pow2_bits_low by lia.
    destruct (lookup_lt_is_Some_2 data1 (p / 8)%nat Hlen) as [b Hb].
    rewrite Hb. cbn [default].
    assert (Hq : bit_at data1 q = Z.testbit b (Z.of_nat (7 - q mod 8)))
      by (unfold bit_at; now rewrite Heq, Hb).
    rewrite Hq, Z.shiftl_1_l.
    destruct bit.
    + rewrite Z.lor_spec, Z.pow2_bits_eqb by lia.
      destruct (Nat.eqb_spec p q) as [->|Hpq].
      * rewrite Z.eqb_refl. apply orb_true_r.
      * replace (Z.of_nat (7 - p mod 8) =? Z.of_nat (7 - q mod 8)) with false;
          [apply orb_false_r|].
        symmetry. apply Z.eqb_neq. div_lia.
    + rewrite Z.land_spec, Z.lnot_spec, Z.pow2_bits_eqb by lia.
      destruct (Nat.eqb_spec p q) as [->|Hpq].
      * rewrite Z.eqb_refl. apply andb_false_r.
      * replace (Z.of_nat (7 - p mod 8) =? Z.of_nat (7 - q mod 8)) with false;
          [apply andb_true_r|].
        symmetry. apply Z.eqb_neq. div_lia.
  - rewrite list_lookup_insert_ne by congruence.
    destruct (Nat.eqb_spec p q) as [->|_]; [congruence|].
    unfold bit_at. reflexivity.
Qed.

Lemma length_put_bit (data : list Z) (p : nat) (bit : bool) :
  length (utils.put_bit data p bit) = Nat.max (length data) (p / 8 + 1).
Proof.
  unfold utils.put_bit. rewrite length_insert.
  destruct (Nat.leb_spec (length data) (p / 8)%nat).
  - rewrite length_app, length_replicate. lia.
  - lia.
Qed.

Lemma set_bits_in_bytes_loop_bits (s n : nat) (value : Z) (todo : nat) :
  forall data,
    (todo <= n <= 32)%nat ->
    exists data',
      utils.set_bits_in_bytes_loop data s n todo value = Some data'
      /\ (forall q,
             bit_at data' q
             = if (s + (n - todo) <=? q)%nat && (q <? s + n)%nat
               then Z.testbit value (Z.of_nat (n - 1 - (q - s)))
               else bit_at data q)
      /\ length data'
         = if (todo =? 0)%nat then length data
           else Nat.max (length data) ((s + n - 1) / 8 + 1).
Proof.
  induction todo as [|todo IH]; intros data Htodo;
    cbn [utils.set_bits_in_bytes_loop].
  - exists data. split; [reflexivity|]. split; [|reflexivity]. intros q.
    destruct (Nat.leb_spec (s + (n - 0)) q), (Nat.ltb_spec q (s + n));
      try reflexivity; lia.
  - destruct (Nat.leb_spec 32 (n - 1 - (n - S todo))); [lia|].
    fold (bit_set value (n - 1 - (n - S todo))). rewrite bit_set_testbit.
    destruct (IH (utils.put_bit data (s + (n - S todo))
                    (Z.testbit value (Z.of_nat (n - 1 - (n - S todo))))))
      as (data' & -> & Hbits & Hlen); [lia|].
    exists data'. split; [reflexivity|]. split.
    + intros q. rewrite Hbits, bit_at_put_bit.
      destruct (Nat.eqb_spec (s + (n - S todo)) q) as [<-|Hne].
      * destruct (Nat.leb_spec (s + (n - todo)) (s + (n - S todo))); [lia|].
        destruct (Nat.leb_spec (s + (n - S todo)) (s + (n - S todo))); [|lia].
        destruct (Nat.ltb_spec (s + (n - S todo)) (s + n)); [|lia].
        cbn [andb]. do 2 f_equal. lia.
      * destruct (Nat.leb_spec (s + (n - todo)) q),
          (Nat.leb_spec (s + (n - S todo)) q); try reflexivity; lia.
    + rewrite Hlen, length_put_bit. cbn [Nat.eqb]. clear IH Hbits Hlen.
      destruct todo as [|todo]; cbn [Nat.eqb].
      * replace (s + (n - 1))%nat with (s + n - 1)%nat by lia. reflexivity.
      * assert ((s + (n - S (S todo))) / 8 <= (s + n - 1) / 8)%nat by div_lia.
        lia.
Qed.

Lemma extract_bits_from_bytes_loop_bits (data : list Z) (s n : nat)
    (todo : nat) :
  forall acc,
    (todo <= n <= 32)%nat ->
    (forall k : nat,
        Z.testbit acc (Z.of_nat k)
        = (todo <=? k)%nat && (k <? n)%nat && bit_at data (s + (n - 1 - k))) ->
    exists v,
      utils.extract_bits_from_bytes_loop data s n todo acc = Some v
      /\ forall k : nat,
           Z.testbit v (Z.of_nat k)
           = (k <? n)%nat && bit_at data (s + (n - 1 - k)).
Proof.
  induction todo as [|todo IH]; intros acc Htodo Hacc;
    cbn [utils.extract_bits_from_bytes_loop].
  - exists acc. split; [reflexivity|]. intros k. now rewrite Hacc.
  - assert (Hkeep :
      bit_at data (s + (n - S todo)) = false ->
      forall k : nat,
        Z.testbit acc (Z.of_nat k)
        = (todo <=? k)%nat && (k <? n)%nat && bit_at data (s + (n - 1 - k))).
    { intros Eb k. rewrite Hacc.
      destruct (Nat.eq_dec todo k) as [<-|Hne].
      - replace (n - 1 - todo)%nat with (n - S todo)%nat by lia.
        now rewrite Eb, !andb_false_r.
      - destruct (Nat.leb_spec (S todo) k), (Nat.leb_spec todo k);
          try reflexivity; lia. }
    destruct (data !! ((s + (n - S todo)) / 8)%nat) as [b|] eqn:Hb.
    2:{ apply IH; [lia|]. apply Hkeep. unfold bit_at. now rewrite Hb. }
    fold (bit_set b (7 - (s + (n - S todo)) mod 8)).
    rewrite bit_set_testbit.
    assert (Hbit : bit_at data (s + (n - S todo))
                   = Z.testbit b (Z.of_nat (7 - (s + (n - S todo)) mod 8)))
      by (unfold bit_at; now rewrite Hb).
    rewrite <- Hbit.
    destruct (bit_at data (s + (n - S todo))) eqn:Eb;
      [|apply IH; [lia|now apply Hkeep]].
    destruct (Nat.leb_spec 32 (n - 1 - (n - S todo))); [lia|].
    replace (n - 1 - (n - S todo))%nat with todo by lia.
    apply IH; [lia|]. intros k.
    rewrite testbit_lor_pow2, Hacc.
    destruct (Nat.eqb_spec todo k) as [<-|Hne].
    + rewrite orb_true_r.
      replace (n - 1 - todo)%nat with (n - S todo)%nat by lia.
      rewrite Eb, Nat.leb_refl.
      destruct (Nat.ltb_spec todo n); [reflexivity|lia].
    + rewrite orb_false_r.
      destruct (Nat.leb_spec (S todo) k), (Nat.leb_spec todo k);
        try reflexivity; lia.
Qed.

Lemma value_of_low_bits (v value : Z) (n : nat) :
  (forall k : nat,
      Z.testbit v (Z.of_nat k)
      = (k <? n)%nat && Z.testbit value (Z.of_nat k)) ->
  v = value mod 2 ^ Z.of_nat n.
Proof.
  intros Hbits. apply Z.bits_inj'. intros k Hk.
  rewrite <- (Z2Nat.id k) by lia. rewrite Hbits.
  destruct (Nat.ltb_spec (Z.to_nat k) n).
  - rewrite Z.mod_pow2_bits_low by lia. reflexivity.
  - rewrite Z.mod_pow2_bits_high by lia. reflexivity.
Qed.

(** X11: for at most 32 bits, [set_bits_in_bytes] followed by
    [extract_bits_from_bytes] on the same range gives back the value
    modulo [2^num_bits]; the write leaves every bit outside the range as
    it was and grows the vector just far enough to hold the range. *)
Theorem set_bits_then_extract_bits (data : list Z) (start_bit num_bits : nat)
    (value : Z) :
  (num_bits <= 32)%nat ->
  exists data',
    utils.set_bits_in_bytes data start_bit num_bits value = Some data'
    /\ utils.extract_bits_from_bytes data' start_bit num_bits
       = Some (value mod 2 ^ Z.of_nat num_bits)
    /\ (forall q, (q < start_bit \/ start_bit + num_bits <= q)%nat ->
                  bit_at data' q = bit_at data q)
    /\ length data'
       = if (num_bits =? 0)%nat then length data
         else Nat.max (length data) ((start_bit + num_bits - 1) / 8 + 1).
Proof.
  intros Hn. unfold utils.set_bits_in_bytes, utils.extract_bits_from_bytes.
  destruct (set_bits_in_bytes_loop_bits start_bit num_bits value num_bits data)
    as (data' & Hset & Hbits & Hlen); [lia|].
  exists data'. split; [exact Hset|]. split; [|split; [|exact Hlen]].
  - destruct (extract_bits_from_bytes_loop_bits data' start_bit num_bits
                num_bits 0) as (v & -> & Hv); [lia| |].
    { intros k. rewrite Z.bits_0.
      destruct (Nat.leb_spec num_bits k), (Nat.ltb_spec k num_bits);
        try reflexivity; lia. }
    f_equal. apply value_of_low_bits. intros k. rewrite Hv.
    destruct (Nat.ltb_spec k num_bits); [|reflexivity]. cbn [andb].
    rewrite Hbits.
    destruct (Nat.leb_spec (start_bit + (num_bits - num_bits))
                (start_bit + (num_bits - 1 - k))); [|lia].
    destruct (Nat.ltb_spec (start_bit + (num_bits - 1 - k))
                (start_bit + num_bits)); [|lia].
    cbn [andb]. do 2 f_equal. lia.
  - intros q Hq. rewrite Hbits.
    destruct (Nat.leb_spec (start_bit + (num_bits - num_bits)) q),
      (Nat.ltb_spec q (start_bit + num_bits)); try reflexivity; lia.
Qed.

Lemma set_bits_then_extract_bits_witness :
  utils.set_bits_in_bytes [0xFF] 6 10 0x2A5 = Some [0xFE; 0xA5]
  /\ utils.extract_bits_from_bytes [0xFE; 0xA5] 6 10 = Some 0x2A5.
Proof.
  destruct (set_bits_then_extract_bits [0xFF] 6 10 0x2A5) as (data' & Hset & Hget & _);
    [lia|].
  vm_compute in Hset. injection Hset as <-.
  split; [reflexivity|exact Hget].
Defined.

(** X12: inside the vector and for at most 32 bits, the throwing
    [FieldParser::extract_bits] and the lenient
    [utils::extract_bits_from_bytes] read the same value. *)
Theorem extract_bits_agrees_with_extract_bits_from_bytes (data : list Z)
    (start_bit num_bits : nat) :
  (num_bits <= 32)%nat ->
  (start_bit + num_bits <= 8 * length data)%nat ->
  exists v,
    extract_bits data start_bit num_bits = Ok v
    /\ utils.extract_bits_from_bytes data start_bit num_bits = Some v.
Proof.
  intros Hn Hin. unfold extract_bits, utils.extract_bits_from_bytes.
  destruct (Nat.ltb_spec 32 num_bits); [lia|].
  assert (H0 : forall k : nat,
    Z.testbit 0 (Z.of_nat k)
    = (num_bits <=? k)%nat && (k <? num_bits)%nat
      && bit_at data (start_bit + (num_bits - 1 - k))).
  { intros k. rewrite Z.bits_0.
    destruct (Nat.leb_spec num_bits k), (Nat.ltb_spec k num_bits);
      try reflexivity; lia. }
  destruct (extract_bits_loop_bits data start_bit num_bits num_bits 0)
    as (v & -> & Hv); [lia|exact Hin|exact H0|].
  destruct (extract_bits_from_bytes_loop_bits data start_bit num_bits
              num_bits 0) as (v' & -> & Hv'); [lia|exact H0|].
  exists v. split; [reflexivity|]. f_equal.
  apply Z.bits_inj'. intros k Hk. rewrite <- (Z2Nat.id k) by lia.
  now rewrite Hv, Hv'.
Qed.

Lemma extract_bits_agrees_with_extract_bits_from_bytes_witness :
  extract_bits [0x12; 0x34; 0x56] 4 12 = Ok 0x234
  /\ utils.extract_bits_from_bytes [0x12; 0x34; 0x56] 4 12 = Some 0x234.
Proof.
  destruct (extract_bits_agrees_with_extract_bits_from_bytes
              [0x12; 0x34; 0x56] 4 12) as (v & H1 & H2); [lia|cbn; lia|].
  assert (v = 0x234) as -> by (vm_compute in H1; congruence).
  split; assumption.
Defined.

(** ** Whole bytes are big-endian *)

Lemma testbit_shifted_byte (a b : Z) (k : nat) :
  is_byte b ->
  Z.testbit (256 * a + b) (Z.of_nat k)
  = if (k <? 8)%nat then Z.testbit b (Z.of_nat k)
    else Z.testbit a (Z.of_nat (k - 8)).
Proof.
  intros Hb. unfold is_byte in Hb.
  replace (256 * a + b) with (b + a * 2 ^ 8) by (change (2 ^ 8) with 256; lia).
  rewrite <- lor_disjoint_high by (change (2 ^ 8) with 256; lia).
  rewrite Z.lor_spec.
  destruct (Nat.ltb_spec k 8).
  - rewrite Z.mul_pow2_bits_low by lia. apply orb_false_r.
  - rewrite (small_bits_above b 8) by (change (2 ^ 8) with 256; lia).
    rewrite Z.mul_pow2_bits by lia. cbn [orb]. f_equal. lia.
Qed.

Lemma bit_at_snoc (bytes : list Z) (b : Z) (p : nat) :
  bit_at (bytes ++ [b]) p
  = if (p <? 8 * length bytes)%nat then bit_at bytes p
    else if (p <? 8 * length bytes + 8)%nat
         then Z.testbit b (Z.of_nat (7 - p mod 8)) else false.
Proof.
  unfold bit_at.
  destruct (Nat.ltb_spec p (8 * length bytes)).
  - rewrite lookup_app_l by div_lia. reflexivity.
  - rewrite lookup_app_r by div_lia.
    destruct (Nat.ltb_spec p (8 * length bytes + 8)).
    + replace (p / 8 - length bytes)%nat with 0%nat by div_lia. reflexivity.
    + replace (p / 8 - length bytes)%nat
        with (S (p / 8 - length bytes - 1))%nat by div_lia.
      reflexivity.
Qed.

Lemma big_endian_bits (bytes : list Z) :
  Forall is_byte bytes ->
  forall k : nat,
    Z.testbit (big_endian bytes) (Z.of_nat k)
    = (k <? 8 * length bytes)%nat && bit_at bytes (8 * length bytes - 1 - k).
Proof.
  induction bytes as [|b bytes IH] using rev_ind; intros Hbytes k.
  - cbn. now rewrite Z.bits_0.
  - apply Forall_app in Hbytes as [Hbytes Hb].
    rewrite Forall_singleton in Hb.
    unfold big_endian in *. rewrite fold_left_app. cbn [fold_left].
    rewrite testbit_shifted_byte by exact Hb.
    rewrite length_app, bit_at_snoc. cbn [length].
    destruct (Nat.ltb_spec k 8).
    + destruct (Nat.ltb_spec k (8 * (length bytes + 1))); [|lia].
      destruct (Nat.ltb_spec (8 * (length bytes + 1) - 1 - k)
                  (8 * length bytes)); [lia|].
      destruct (Nat.ltb_spec (8 * (length bytes + 1) - 1 - k)
                  (8 * length bytes + 8)); [|lia].
      cbn [andb]. f_equal. div_lia.
    + rewrite IH by exact Hbytes.
      destruct (Nat.ltb_spec (k - 8) (8 * length bytes)),
        (Nat.ltb_spec k (8 * (length bytes + 1))); try lia;
        try reflexivity.
      destruct (Nat.ltb_spec (8 * (length bytes + 1) - 1 - k)
                  (8 * length bytes)); [|lia].
      cbn [andb]. f_equal. lia.
Qed.

(** X13: read over whole bytes from the start of a vector of at most four
    bytes, [extract_bits] returns the big-endian number that the bytes
    spell. *)
Theorem extract_bits_of_whole_bytes_is_big_endian (bytes : list Z) :
  Forall is_byte bytes -> (length bytes <= 4)%nat ->
  extract_bits bytes 0 (8 * length bytes) = Ok (big_endian bytes).
Proof.
  intros Hbytes Hlen.
  destruct (extract_bits_cases bytes 0 (8 * length bytes))
    as (_ & _ & Hok & _).
  destruct Hok as (v & -> & Hbound & Hv); [lia|lia|].
  f_equal. apply Z.bits_inj'. intros k Hk.
  rewrite <- (Z2Nat.id k) by lia. rewrite big_endian_bits by exact Hbytes.
  destruct (Nat.ltb_spec (Z.to_nat k) (8 * length bytes)) as [Hlt|Hge].
  - specialize (Hv (8 * length bytes - 1 - Z.to_nat k)%nat ltac:(lia)).
    replace (8 * length bytes - 1 - (8 * length bytes - 1 - Z.to_nat k))%nat
      with (Z.to_nat k) in Hv by lia.
    rewrite Hv. reflexivity.
  - cbn [andb].
    apply (small_bits_above v (Z.of_nat (8 * length bytes))); [exact Hbound|].
    lia.
Qed.

Lemma extract_bits_of_whole_bytes_is_big_endian_witness :
  extract_bits [0x12; 0x34; 0x56] 0 24 = Ok 0x123456.
Proof.
  apply (extract_bits_of_whole_bytes_is_big_endian [0x12; 0x34; 0x56]).
  - repeat constructor; lia.
  - cbn. lia.
Defined.

(** ** The range of decoded integers *)

Lemma extract_bits_ok_bound (data : list Z) (start_bit num_bits : nat) (v : Z) :
  extract_bits data start_bit num_bits = Ok v ->
  (num_bits <= 32)%nat /\ 0 <= v < 2 ^ Z.of_nat num_bits.
Proof.
  intros Hv.
  destruct (extract_bits_cases data start_bit num_bits)
    as (Hbig & Hpast & Hok & _).
  destruct (Nat.lt_ge_cases 32 num_bits) as [H32|H32];
    [rewrite Hbig in Hv by exact H32; discriminate|].
  split; [exact H32|].
  destruct (Nat.lt_ge_cases (8 * length data) (start_bit + num_bits))
    as [Hout|Hin].
  - destruct num_bits as [|n].
    + destruct (extract_bits_cases data start_bit 0) as (_ & _ & _ & H0).
      rewrite H0 in Hv. injection Hv as <-. cbn. lia.
    + rewrite Hpast in Hv by lia. discriminate.
  - destruct (Hok H32 Hin) as (v' & Hv' & Hbound & _). congruence.
Qed.

(** X14: an integer that [parse_field] decodes as valid lies in
    [0, 2^bits) when the field has an unsigned type, and in
    [-2^(bits-1), 2^(bits-1)) when it has a signed type whose width is the
    declared [bits]. *)
Theorem parse_field_integer_in_range (field_def : Field)
    (c c' : ParseContext) (pf : ParsedField) :
  parse_field field_def c = (Ok pf, c') ->
  pf_valid pf = true ->
  let bits := Z.of_nat (f_bits field_def) in
  (is_unsigned (f_type field_def) = true ->
   exists v, int_value (pf_value pf) = Some v /\ 0 <= v < 2 ^ bits)
  /\ (is_signed (f_type field_def) = true ->
      bits = type_width (f_type field_def) ->
      exists v, int_value (pf_value pf) = Some v
                /\ - 2 ^ (bits - 1) <= v < 2 ^ (bits - 1)).
Proof.
  intros Hparse Hvalid bits. unfold parse_field in Hparse.
  destruct (read_field_bytes field_def c) as [[field_bytes| |] c1];
    try (injection Hparse as <- <-; discriminate Hvalid);
    try discriminate Hparse.
  destruct (extract_bits field_bytes 0 (f_bits field_def)) as [raw| |] eqn:Hraw;
    try (injection Hparse as <- <-; discriminate Hvalid);
    try discriminate Hparse.
  injection Hparse as <- <-. cbn [pf_value field_result].
  apply extract_bits_ok_bound in Hraw as [H32 Hraw]. fold bits in Hraw.
  split.
  - intros Hunsigned. unfold convert_raw_value.
    assert (Hmod : forall w, 0 < w ->
              0 <= cast_unsigned w raw < 2 ^ bits).
    { intros w Hw. unfold cast_unsigned.
      pose proof (Z.mod_pos_bound raw (2 ^ w) ltac:(apply Z.pow_pos_nonneg; lia)).
      pose proof (Z.mod_le raw (2 ^ w) ltac:(lia)
                    ltac:(apply Z.pow_pos_nonneg; lia)). lia. }
    destruct (f_type field_def); try discriminate Hunsigned;
      cbn [int_value]; eexists; (split; [reflexivity|]);
      try (apply Hmod; lia); exact Hraw.
  - intros Hsigned Hwidth.
    assert (Hhalf : 2 ^ bits = 2 * 2 ^ (bits - 1)).
    { replace bits with ((bits - 1) + 1) at 1 by lia.
      rewrite Z.pow_add_r, Z.pow_1_r; [lia| |lia].
      destruct (f_type field_def); try discriminate Hsigned;
        cbn [type_width] in Hwidth; lia. }
    assert (Hcase : forall x,
      x = (if Z.testbit raw (bits - 1) then raw - 2 ^ bits else raw) ->
      - 2 ^ (bits - 1) <= x < 2 ^ (bits - 1)).
    { intros x ->. rewrite (testbit_top raw (bits - 1));
        [|destruct (f_type field_def); try discriminate Hsigned;
          cbn [type_width] in Hwidth; lia
         |replace (bits - 1 + 1) with bits by lia; exact Hraw].
      destruct (Z.leb_spec (2 ^ (bits - 1)) raw); lia. }
    unfold convert_raw_value.
    destruct (f_type field_def); try discriminate Hsigned;
      cbn [type_width] in Hwidth; rewrite Hwidth in *.
    + pose proof (masked_cast 8 8 0xFFFFFF raw) as H.
      change (0xFFFFFF * 2 ^ 8) with 0xFFFFFF00 in H.
      change (2 ^ (8 - 1)) with 0x80 in H |- *.
      specialize (H ltac:(lia) ltac:(lia) Hraw eq_refl).
      destruct (negb (Z.land raw 0x80 =? 0)); cbn [int_value];
        eexists; (split; [reflexivity|]); apply Hcase; exact H.
    + pose proof (masked_cast 16 16 0xFFFF raw) as H.
      change (0xFFFF * 2 ^ 16) with 0xFFFF0000 in H.
      change (2 ^ (16 - 1)) with 0x8000 in H |- *.
      specialize (H ltac:(lia) ltac:(lia) Hraw eq_refl).
      destruct (negb (Z.land raw 0x8000 =? 0)); cbn [int_value];
        eexists; (split; [reflexivity|]); apply Hcase; exact H.
    + pose proof (masked_cast 24 32 0xFF raw) as H.
      change (0xFF * 2 ^ 24) with 0xFF000000 in H.
      change (2 ^ (24 - 1)) with 0x800000 in H |- *.
      specialize (H ltac:(lia) ltac:(lia) Hraw eq_refl).
      destruct (negb (Z.land raw 0x800000 =? 0)); cbn [int_value];
        eexists; (split; [reflexivity|]); apply Hcase; exact H.
    + cbn [int_value]. eexists. split; [reflexivity|].
      unfold cast_signed. rewrite Z.mod_small by exact Hraw.
      change (2 ^ (32 - 1)) with 2147483648 in *.
      change (2 ^ 32) with 4294967296 in *.
      destruct (Z.ltb_spec raw 2147483648); lia.
Qed.

Lemma parse_field_integer_in_range_witness :
  parse_field (signed_field INT8 8) (context_over [0xFF] None)
  = (Ok (field_result (signed_field INT8 8) (VI8 (-1)) true ""),
     set_position (context_over [0xFF] None) 1)
  /\ exists v, int_value (VI8 (-1)) = Some v /\ - 2 ^ (8 - 1) <= v < 2 ^ (8 - 1).
Proof.
  split; [reflexivity|].
  destruct (parse_field_integer_in_range (signed_field INT8 8)
              (context_over [0xFF] None)
              (set_position (context_over [0xFF] None) 1)
              (field_result (signed_field INT8 8) (VI8 (-1)) true ""))
    as [_ H]; [reflexivity|reflexivity|].
  apply H; reflexivity.
Defined.

(** ** Statistics over messages *)

Lemma increment_lookup `{Countable K} (counts : gmap K nat) (key key' : K) :
  default 0%nat (utils.increment counts key !! key')
  = (default 0%nat (counts !! key') + if decide (key = key') then 1 else 0)%nat.
Proof.
  unfold utils.increment. destruct (decide (key = key')) as [->|Hne].
  - rewrite lookup_insert_eq. cbn. lia.
  - rewrite lookup_insert_ne by exact Hne. lia.
Qed.

Lemma count_items_lookup (items : list ParsedDataItem) (id : string) :
  forall counts : gmap string nat,
    default 0%nat
      (fold_left (fun counts item => utils.increment counts (pdi_id item))
         items counts !! id)
    = (default 0%nat (counts !! id)
       + count_if (fun item => String.eqb (pdi_id item) id) items)%nat.
Proof.
  unfold count_if.
  induction items as [|item items IH]; intros counts; cbn [fold_left List.filter].
  - cbn. lia.
  - rewrite IH, increment_lookup.
    destruct (decide (pdi_id item = id)) as [Heq|Hne].
    + apply String.eqb_eq in Heq. rewrite Heq. cbn [length]. lia.
    + apply String.eqb_neq in Hne. rewrite Hne. lia.
Qed.

Lemma analyze_messages_from (messages : list AsterixMessage) :
  forall stats,
    let stats' := fold_left utils.analyze_message messages stats in
    utils.total_messages stats' = utils.total_messages stats
    /\ utils.valid_messages stats'
       = (utils.valid_messages stats + count_if msg_valid messages)%nat
    /\ utils.invalid_messages stats'
       = (utils.invalid_messages stats
          + count_if (fun m => negb (msg_valid m)) messages)%nat
    /\ utils.errors stats'
       = (utils.errors stats
          ++ map msg_error_message
               (List.filter (fun m => negb (msg_valid m)) messages))%list
    /\ (forall c,
          default 0%nat (utils.category_counts stats' !! c)
          = (default 0%nat (utils.category_counts stats !! c)
             + count_if (fun m => Z.eqb (msg_category m) c) messages)%nat)
    /\ (forall id,
          default 0%nat (utils.data_item_counts stats' !! id)
          = (default 0%nat (utils.data_item_counts stats !! id)
             + count_if (fun item => String.eqb (pdi_id item) id)
                 (concat (map msg_data_items messages)))%nat).
Proof.
  unfold count_if.
  induction messages as [|message messages IH]; intros stats; cbn zeta.
  - cbn. rewrite app_nil_r. repeat split; intros; lia.
  - cbn [fold_left List.filter map concat].
    destruct (IH (utils.analyze_message stats message))
      as (Ht & Hv & Hi & He & Hc & Hd).
    rewrite Ht, Hv, Hi, He. clear Ht Hv Hi He.
    split; [|split; [|split; [|split; [|split]]]].
    + unfold utils.analyze_message. now destruct (msg_valid message).
    + unfold utils.analyze_message.
      destruct (msg_valid message); cbn [negb length utils.valid_messages]; lia.
    + unfold utils.analyze_message.
      destruct (msg_valid message);
        cbn [negb length utils.invalid_messages]; lia.
    + unfold utils.analyze_message.
      destruct (msg_valid message); cbn [negb map utils.errors];
        [reflexivity|now rewrite <- app_assoc].
    + intros c. rewrite Hc.
      assert (Hstep :
        default 0%nat
          (utils.category_counts (utils.analyze_message stats message) !! c)
        = (default 0%nat (utils.category_counts stats !! c)
           + if Z.eqb (msg_category message) c then 1 else 0)%nat).
      { unfold utils.analyze_message.
        destruct (msg_valid message); cbn [utils.category_counts];
          rewrite increment_lookup;
          destruct (decide (msg_category message = c)) as [Heq|Hne],
            (Z.eqb_spec (msg_category message) c); try reflexivity;
            contradiction. }
      rewrite Hstep.
      destruct (Z.eqb (msg_category message) c); cbn [length]; lia.
    + intros id. rewrite Hd.
      assert (Hstep :
        default 0%nat
          (utils.data_item_counts (utils.analyze_message stats message) !! id)
        = (default 0%nat (utils.data_item_counts stats !! id)
           + length (List.filter (fun item => String.eqb (pdi_id item) id)
                       (msg_data_items message)))%nat).
      { unfold utils.analyze_message.
        destruct (msg_valid message); cbn [utils.data_item_counts];
          apply count_items_lookup. }
      rewrite Hstep, List.filter_app, length_app. lia.
Qed.

(** X15: [analyze_messages] counts what it says: the total is the number
    of messages and splits into valid and invalid ones; [errors] holds the
    messages of the invalid ones in order; the count of a category is the
    number of messages of that category; the count of an item id is the
    number of items with that id over all messages. *)
Theorem analyze_messages_counts (messages : list AsterixMessage) :
  let stats := utils.analyze_messages messages in
  utils.total_messages stats = length messages
  /\ utils.valid_messages stats = count_if msg_valid messages
  /\ utils.invalid_messages stats
     = count_if (fun m => negb (msg_valid m)) messages
  /\ (utils.valid_messages stats + utils.invalid_messages stats)%nat
     = utils.total_messages stats
  /\ utils.errors stats
     = map msg_error_message
         (List.filter (fun m => negb (msg_valid m)) messages)
  /\ (forall c,
        default 0%nat (utils.category_counts stats !! c)
        = count_if (fun m => Z.eqb (msg_category m) c) messages)
  /\ (forall id,
        default 0%nat (utils.data_item_counts stats !! id)
        = count_if (fun item => String.eqb (pdi_id item) id)
            (concat (map msg_data_items messages))).
Proof.
  cbn zeta. unfold utils.analyze_messages.
  destruct (analyze_messages_from messages
              (utils.mkStatistics (length messages) 0 0 ∅ ∅ []))
    as (Ht & Hv & Hi & He & Hc & Hd).
  cbn zeta in *. rewrite Ht, Hv, Hi, He.
  cbn [utils.total_messages utils.valid_messages utils.invalid_messages
       utils.errors utils.category_counts utils.data_item_counts app Nat.add]
    in *.
  repeat split.
  - unfold count_if. clear. induction messages as [|m messages IH];
      [reflexivity|].
    cbn [List.filter length]. destruct (msg_valid m); cbn [negb length]; lia.
  - intros c. now rewrite Hc, lookup_empty.
  - intros id. now rewrite Hd, lookup_empty.
Qed.

(** ** Six-bit characters *)

Lemma list_ascii_of_string_app (s1 s2 : string) :
  list_ascii_of_string (s1 +:+ s2)
  = (list_ascii_of_string s1 ++ list_ascii_of_string s2)%list.
Proof.
  induction s1 as [|c s1 IH]; [reflexivity|].
  change (String c s1 +:+ s2) with (String c (s1 +:+ s2)).
  cbn [list_ascii_of_string app]. now rewrite IH.
Qed.

(** What [strip_trailing_spaces_rev] returns is a suffix of its argument
    that does not begin with a space. *)
Lemma strip_trailing_spaces_rev_spec (r : list ascii) :
  (exists pre, r = (pre ++ strip_trailing_spaces_rev r)%list)
  /\ forall c rest, strip_trailing_spaces_rev r = c :: rest -> c <> " "%char.
Proof.
  induction r as [|c r [[pre Hpre] IH]]; cbn [strip_trailing_spaces_rev].
  - split; [exists []; reflexivity|discriminate].
  - destruct (Ascii.eqb_spec c " ") as [->|Hne].
    + split; [|exact IH]. exists (" "%char :: pre). cbn [app]. now f_equal.
    + split; [exists []; reflexivity|]. now intros c' rest [= <- _].
Qed.

(** The string that the loop of [decode_6bit_ascii] builds is empty or
    begins with a character other than a space. *)
Lemma six_bit_loop_no_leading_space (data : list Z) (ks : list nat) :
  forall result,
    (forall s, result <> String " " s) ->
    forall s,
      fold_left
        (fun result k =>
           let char_code := six_bit_code data (6 * k) in
           if (char_code <? 49)%nat then
             let c := icao_char char_code in
             if negb (Ascii.eqb c " ") || negb (String.eqb result "")
             then result +:+ String c "" else result
           else result)
        ks result <> String " " s.
Proof.
  induction ks as [|k ks IH]; intros result Hresult; cbn [fold_left];
    [exact Hresult|].
  apply IH. cbv zeta.
  destruct (six_bit_code data (6 * k) <? 49)%nat; [|exact Hresult].
  destruct (Ascii.eqb_spec (icao_char (six_bit_code data (6 * k))) " ")
    as [Hc|Hc]; cbn [negb orb].
  - destruct result as [|c result]; cbn [String.eqb negb]; [exact Hresult|].
    intros s Heq. injection Heq as -> _. now apply (Hresult result).
  - set (c0 := icao_char _) in *. clearbody c0.
    destruct result as [|c result].
    + change ("" +:+ String c0 "") with (String c0 "").
      intros s [= ? _]. contradiction.
    + change (String c result +:+ String c0 "")
        with (String c (result +:+ String c0 "")).
      intros s [= -> _]. now apply (Hresult result).
Qed.

(** X16: the text that [decode_6bit_ascii] returns neither begins nor
    ends with a space, whatever the bytes. *)
Theorem decode_6bit_ascii_is_trimmed (data : list Z) (s : string) :
  decode_6bit_ascii data <> String " " s
  /\ decode_6bit_ascii data <> s +:+ " ".
Proof.
  unfold decode_6bit_ascii, strip_trailing_spaces.
  set (result := fold_left _ _ "").
  assert (Hlead : forall s, result <> String " " s).
  { subst result. apply six_bit_loop_no_leading_space. discriminate. }
  destruct (strip_trailing_spaces_rev_spec (rev (list_ascii_of_string result)))
    as [[pre Hpre] Hhead].
  split; intros Heq;
    apply (f_equal list_ascii_of_string) in Heq;
    rewrite list_ascii_of_string_of_list_ascii in Heq.
  - cbn [list_ascii_of_string] in Heq.
    apply (f_equal (@rev ascii)) in Hpre.
    rewrite rev_involutive, rev_app_distr, Heq in Hpre.
    destruct result as [|c result]; [discriminate|].
    cbn [list_ascii_of_string app] in Hpre.
    injection Hpre as -> _. now apply (Hlead result).
  - rewrite list_ascii_of_string_app in Heq. cbn [list_ascii_of_string] in Heq.
    apply (f_equal (@rev ascii)) in Heq.
    rewrite rev_involutive, rev_app_distr in Heq. cbn [rev app] in Heq.
    now apply Hhead in Heq.
Qed.

(** ** Variable-length items *)

(** X17: the body of a Variable item is the run of bytes from the cursor
    up to and including the first byte whose FX bit is clear; finding it
    leaves the cursor where it was. *)
Theorem variable_item_ends_at_first_clear_fx (item_def : DataItem)
    (c : ParseContext) (pre : list Z) (b : Z) :
  di_format item_def = VARIABLE ->
  at_cursor c (pre ++ [b]) ->
  forallb fx_set pre = true ->
  fx_set b = false ->
  determine_length item_def c = (Ok (length pre + 1)%nat, c).
Proof.
  intros Hformat [Hsize Hbytes] Hpre Hb. unfold determine_length.
  rewrite Hformat. rewrite length_app in Hsize. cbn [length] in Hsize.
  change 1%nat with (0 + 1)%nat at 1.
  rewrite (scan_variable_finds c b pre 0); [reflexivity|lia|lia| |exact Hpre|exact Hb].
  intros i x Hi. rewrite Nat.add_0_r. now apply Hbytes.
Qed.

Lemma variable_item_ends_at_first_clear_fx_witness :
  at_cursor (context_over e3_bytes None) ([0x03] ++ [0x02])
  /\ determine_length I002_080 (context_over e3_bytes None)
     = (Ok 2%nat, context_over e3_bytes None).
Proof.
  assert (Hat : at_cursor (context_over e3_bytes None) ([0x03] ++ [0x02])).
  { split; [cbn; lia|].
    intros [|[|i]] x Hi; cbn in Hi |- *; congruence. }
  split; [exact Hat|].
  apply (variable_item_ends_at_first_clear_fx I002_080
           (context_over e3_bytes None) [0x03] 0x02);
    [reflexivity|exact Hat|reflexivity|reflexivity].
Defined.

(** X18: a Variable item whose bytes, up to the end of the context, all
    have their FX bit set is given up: the item comes out invalid, without
    fields, and the cursor stays at the start of the item. *)
Theorem variable_item_without_clear_fx_is_given_up (item_def : DataItem)
    (c : ParseContext) (bs : list Z) :
  di_format item_def = VARIABLE ->
  at_cursor c bs ->
  (ctx_position c + length bs = ctx_size c)%nat ->
  forallb fx_set bs = true ->
  parse_data_item item_def c
  = (Ok (mkParsedDataItem (di_id item_def) (di_name item_def) [] false
           "Insufficient data for variable length field"),
     c).
Proof.
  intros Hformat [_ Hbytes] Hsize Hall.
  unfold parse_data_item, determine_length. rewrite Hformat.
  change 1%nat with (0 + 1)%nat at 1.
  rewrite (scan_variable_exhausts c bs 0); [reflexivity|lia| |exact Hall].
  intros i x Hi. rewrite Nat.add_0_r. now apply Hbytes.
Qed.

Lemma variable_item_without_clear_fx_is_given_up_witness :
  at_cursor (context_over [0x03; 0x05] None) [0x03; 0x05]
  /\ parse_data_item I002_080 (context_over [0x03; 0x05] None)
     = (Ok (mkParsedDataItem "I002/080" "Warning/Error Conditions" [] false
              "Insufficient data for variable length field"),
        context_over [0x03; 0x05] None).
Proof.
  assert (Hat : at_cursor (context_over [0x03; 0x05] None) [0x03; 0x05]).
  { split; [cbn; lia|].
    intros [|[|i]] x Hi; cbn in Hi |- *; congruence. }
  split; [exact Hat|].
  apply (variable_item_without_clear_fx_is_given_up I002_080
           (context_over [0x03; 0x05] None) [0x03; 0x05]);
    [reflexivity|exact Hat|reflexivity|reflexivity].
Defined.

(** ** Reads inside the buffer *)

Lemma stoi_no_fault (str : string) : is_fault (stoi str) = false.
Proof.
  unfold stoi.
  destruct (match skip_spaces str with
            | String "-" s' => (true, s')
            | String "+" s' => (false, s')
            | _ => (false, skip_spaces str)
            end) as [negative s].
  destruct (leading_digits s); [reflexivity|].
  now destruct (_ || _).
Qed.

Lemma evaluate_condition_no_fault (condition : string)
    (fields : list ParsedField) :
  is_fault (evaluate_condition condition fields) = false.
Proof.
  unfold evaluate_condition.
  destruct (String.index 0 "==" condition) as [pos|]; [|reflexivity].
  cbv zeta.
  generalize (remove_spaces (String.substring 0 pos condition)).
  generalize (remove_spaces
                (String.substring (pos + 2)
                   (String.length condition - (pos + 2)) condition)).
  intros expected_value field_name.
  induction fields as [|field rest IH]; cbn [evaluate_condition_search];
    [reflexivity|].
  destruct (String.eqb (pf_name field) field_name); [|exact IH].
  destruct (pf_value field); try exact IH; [|reflexivity].
  pose proof (stoi_no_fault expected_value) as Hstoi.
  now destruct (stoi expected_value).
Qed.

(** The fields of an item whose body lies inside the buffer are parsed
    without a read outside it. *)
Lemma parse_fields_no_fault (fields : list Field) :
  forall item_context bit_offset result_fields,
    inside_buffer item_context ->
    is_fault (fst (parse_fields fields item_context bit_offset result_fields))
    = false.
Proof.
  induction fields as [|field_def rest IH];
    intros item_context bit_offset result_fields Hin; cbn [parse_fields];
    [reflexivity|].
  destruct (String.eqb (f_name field_def) "spare"); [now apply IH|].
  destruct (parse_field_inside field_def
              (set_position item_context (bit_offset / 8)) Hin)
    as (pf & c1 & -> & _ & _ & _).
  cbv beta iota zeta.
  destruct (f_condition field_def) as [condition|]; [|now apply IH].
  destruct (f_extension_fields field_def) as [|e es]; [now apply IH|].
  pose proof (evaluate_condition_no_fault condition
                (result_fields ++ [pf])%list) as Hcond.
  destruct (evaluate_condition condition (result_fields ++ [pf])%list)
    as [[|]|what|f]; [|now apply IH|reflexivity|discriminate Hcond].
  unfold parse_extension_fields.
  destruct (parse_extension_fields_loop_inside (e :: es) [] item_context Hin)
    as (eo & ic' & -> & Hm & _).
  apply IH. eapply inside_buffer_moved_on; eassumption.
Qed.

(** Inside the buffer, the scan of a Variable item reads no byte outside
    it, and the length it finds does not pass the end of the context. *)
Lemma scan_variable_inside (c : ParseContext) (budget : nat) :
  forall bytes_to_read,
    inside_buffer c -> (1 <= bytes_to_read)%nat ->
    match scan_variable budget c (ctx_position c) bytes_to_read with
    | Ok n => (ctx_position c + n <= ctx_size c)%nat
    | Throw _ => True
    | Fault _ => False
    end.
Proof.
  induction budget as [|budget IH]; intros bytes_to_read Hin Hone;
    cbn [scan_variable]; [exact I|].
  unfold has_data.
  destruct (Nat.leb_spec (ctx_position c + bytes_to_read) (ctx_size c))
    as [Hle|Hgt]; cbn [negb]; [|exact I].
  unfold deref.
  destruct (lookup_lt_is_Some_2 (ctx_buffer c)
              (ctx_base c + (ctx_position c + bytes_to_read - 1)))
    as [last_byte ->]; [unfold inside_buffer in Hin; lia|].
  destruct (Z.land last_byte 1 =? 0); [exact Hle|].
  apply IH; [exact Hin|lia].
Qed.

Lemma read_uint8_inside (c : ParseContext) :
  inside_buffer c -> is_fault (fst (read_uint8 c)) = false.
Proof.
  intros Hin. unfold read_uint8, has_data.
  destruct (Nat.leb_spec (ctx_position c + 1) (ctx_size c)) as [Hle|Hgt];
    cbn [negb]; [|reflexivity].
  unfold deref.
  destruct (lookup_lt_is_Some_2 (ctx_buffer c) (ctx_base c + ctx_position c))
    as [b ->]; [unfold inside_buffer in Hin; lia|reflexivity].
Qed.

Lemma determine_length_inside (item_def : DataItem) (c : ParseContext) :
  inside_buffer c ->
  match fst (determine_length item_def c) with
  | Ok n =>
      di_format item_def = VARIABLE -> (ctx_position c + n <= ctx_size c)%nat
  | Throw _ => True
  | Fault _ => False
  end.
Proof.
  intros Hin. unfold determine_length.
  destruct (di_format item_def).
  - destruct (di_length item_def); cbn; [discriminate|exact I].
  - pose proof (scan_variable_inside c (ctx_size c - ctx_position c) 1 Hin
                  (le_n 1)) as Hscan.
    cbn [fst].
    destruct (scan_variable _ c (ctx_position c) 1); auto.
  - destruct (negb (has_data c 1)); [exact I|].
    unfold bind. pose proof (read_uint8_inside c Hin) as Hread.
    destruct (read_uint8 c) as [[b|what|f] c1]; cbn in *;
      [discriminate|exact I|discriminate].
  - destruct (negb (has_data c 1)); [exact I|].
    unfold bind. pose proof (read_uint8_inside c Hin) as Hread.
    destruct (read_uint8 c) as [[b|what|f] c1]; cbn in *;
      [|exact I|discriminate].
    destruct (di_length item_def); cbn; [discriminate|exact I].
Qed.

(** X19: when the context lies inside the buffer, [parse_data_item] reads
    outside the buffer only for an item that is not Variable and whose
    length, as declared or as read from its first byte, carries its body
    past the end of the buffer. A Variable item never does. *)
Theorem parse_data_item_faults_only_past_the_buffer (item_def : DataItem)
    (c : ParseContext) :
  inside_buffer c ->
  is_fault (fst (parse_data_item item_def c)) = true ->
  di_format item_def <> VARIABLE
  /\ exists n c1,
       determine_length item_def c = (Ok n, c1)
       /\ (length (ctx_buffer c) < ctx_base c + ctx_position c + n)%nat.
Proof.
  intros Hin Hfault.
  pose proof (determine_length_inside item_def c Hin) as Hlen.
  unfold parse_data_item in Hfault.
  destruct (determine_length item_def c) as [[n|what|f] c1] eqn:Hdet;
    cbn [fst] in Hlen; [|discriminate Hfault|contradiction].
  pose proof (determine_length_moved_on _ _ _ _ Hdet)
    as (Hbuffer & Hbase & _).
  destruct (Nat.le_gt_cases (ctx_base c + ctx_position c + n)
              (length (ctx_buffer c))) as [Hle|Hgt].
  - pose proof (parse_fields_no_fault (di_fields item_def)
                  (new_context (ctx_buffer c1) (ctx_base c1 + ctx_position c)
                     n (ctx_category c1)) 0 []) as Hfields.
    destruct (parse_fields _ _ _ _) as [[u|what|f] fields];
      [discriminate Hfault|discriminate Hfault|].
    discriminate Hfields.
    unfold inside_buffer. cbn. rewrite Hbuffer, Hbase. exact Hle.
  - split; [|eauto].
    intros Hformat. specialize (Hlen Hformat).
    unfold inside_buffer in Hin. lia.
Qed.

Lemma parse_data_item_faults_only_past_the_buffer_witness :
  let context :=
    set_position (context_over short_fixed_block (Some cat002)) 4 in
  inside_buffer context
  /\ is_fault (fst (parse_data_item I002_010 context)) = true
  /\ di_format I002_010 <> VARIABLE
  /\ exists n c1,
       determine_length I002_010 context = (Ok n, c1)
       /\ (length (ctx_buffer context) < ctx_base context + ctx_position context + n)%nat.
Proof.
  intros context.
  assert (Hin : inside_buffer context) by (unfold inside_buffer; cbn; lia).
  split; [exact Hin|]. split; [reflexivity|].
  apply (parse_data_item_faults_only_past_the_buffer I002_010 context Hin).
  reflexivity.
Defined.
